(** * tracklist2cue: tracklist to CUE sheet, CUE sheet to per-track files

    A shallow embedding of [src/utils.ts] and of the three command-line
    entry points ([tracklist2cue.ts], [tracklist2mp3.ts], [cue2mp3.ts]).

    Conventions of the embedding:
    - a JavaScript string is a [string]; each [ascii] stands for one code
      unit below 256;
    - a JavaScript number holding a time is an exact rational ([Q]); the
      rounding of IEEE doubles is outside the model.  Track numbers, exit
      codes and clock fields are integers ([Z]);
    - the file system, the console and the spawned processes are an
      explicit [World] threaded through a small state-and-exception monad;
    - the collaborators whose code is not part of the repository (the
      [cue-parser] package, [node:path], the [ffprobe] and [ffmpeg]
      binaries, [parseFloat]) are the fields of the class [Env]. *)

From Stdlib Require Import String Ascii List ZArith QArith Qround Lia.
From Stdlib Require Import Sorting.Sorted Sorting.Permutation DecimalString Lqa.
From stdpp Require Import base option list gmap strings.

Local Open Scope Z_scope.
#[local] Arguments String.append !s1 s2 : simpl nomatch.

(** ** JavaScript string primitives *)

Module JS.

Definition chr (n : nat) : string := String (ascii_of_nat n) EmptyString.
Definition TAB : string := chr 9.
Definition LF : string := chr 10.
Definition CR : string := chr 13.
Definition QUOTE : string := chr 34.

(** ECMAScript [WhiteSpace] and [LineTerminator] code units below 256:
    what [trim] strips and what the regular expression class [\s] matches. *)
Definition isWhiteSpace (c : ascii) : bool :=
  let n := nat_of_ascii c in
  existsb (Nat.eqb n) [9; 10; 11; 12; 13; 32; 160]%nat.

Fixpoint trimStart (s : string) : string :=
  match s with
  | EmptyString => EmptyString
  | String c s' => if isWhiteSpace c then trimStart s' else s
  end.

Definition isEmpty (s : string) : bool :=
  match s with EmptyString => true | _ => false end.

Fixpoint trimEnd (s : string) : string :=
  match s with
  | EmptyString => EmptyString
  | String c s' =>
      let t := trimEnd s' in
      if isWhiteSpace c && isEmpty t then EmptyString else String c t
  end.

Definition trim (s : string) : string := trimEnd (trimStart s).

Fixpoint drop (n : nat) (s : string) : string :=
  match n, s with
  | O, _ => s
  | S k, EmptyString => EmptyString
  | S k, String _ s' => drop k s'
  end.

Fixpoint chars (s : string) : list string :=
  match s with
  | EmptyString => []
  | String c s' => String c EmptyString :: chars s'
  end.

(** [s.split(sep)] for a non-empty [sep]: [cur] is the piece being read
    and [skip] counts the code units of a matched separator that are
    still to be passed over. *)
Fixpoint split_from (sep : string) (skip : nat) (cur s : string)
  : list string :=
  match s with
  | EmptyString => [cur]
  | String c s' =>
      match skip with
      | S k => split_from sep k cur s'
      | O =>
          if String.prefix sep s
          then cur :: split_from sep (String.length sep - 1) EmptyString s'
          else split_from sep 0 (cur +:+ String c EmptyString) s'
      end
  end.

Definition split (sep s : string) : list string :=
  if isEmpty sep then chars s else split_from sep 0 EmptyString s.

(** [arr.join(sep)] *)
Fixpoint join (sep : string) (l : list string) : string :=
  match l with
  | [] => EmptyString
  | [x] => x
  | x :: rest => x +:+ sep +:+ join sep rest
  end.

(** [s.includes(d)] *)
Fixpoint includes (d s : string) : bool :=
  String.prefix d s
  || match s with
     | EmptyString => false
     | String _ s' => includes d s'
     end.

(** [s.replace(pat, rep)] with a string pattern: the first occurrence
    only.  [rep] is taken literally (the program only passes ['']). *)
Fixpoint replace (pat rep s : string) {struct s} : string :=
  if String.prefix pat s then rep +:+ drop (String.length pat) s
  else match s with
       | EmptyString => EmptyString
       | String c s' => String c (replace pat rep s')
       end.

(** [s.replaceAll(pat, rep)] with a non-empty string pattern. *)
Fixpoint replaceAll_from (pat rep : string) (skip : nat) (s : string)
  : string :=
  match s with
  | EmptyString => EmptyString
  | String c s' =>
      match skip with
      | S k => replaceAll_from pat rep k s'
      | O =>
          if String.prefix pat s
          then rep +:+ replaceAll_from pat rep (String.length pat - 1) s'
          else String c (replaceAll_from pat rep 0 s')
      end
  end.

Definition replaceAll (pat rep s : string) : string :=
  replaceAll_from pat rep 0 s.

(** [s.replace(/[class]/g, '')]: every code unit of the class goes. *)
Fixpoint removeClass (cls : ascii -> bool) (s : string) : string :=
  match s with
  | EmptyString => EmptyString
  | String c s' =>
      if cls c then removeClass cls s' else String c (removeClass cls s')
  end.

(** [s.replace(/\s+/g, ' ')]: [inRun] tells that the previous code unit
    was white space, so that the run has been replaced already. *)
Fixpoint collapseWhiteSpace (inRun : bool) (s : string) : string :=
  match s with
  | EmptyString => EmptyString
  | String c s' =>
      if isWhiteSpace c
      then if inRun then collapseWhiteSpace true s'
           else String " "%char (collapseWhiteSpace true s')
      else String c (collapseWhiteSpace false s')
  end.

Fixpoint repeatChar (c : ascii) (n : nat) : string :=
  match n with
  | O => EmptyString
  | S k => String c (repeatChar c k)
  end.

(** [s.padStart(n, c)] with a one-unit fill. *)
Definition padStart (n : nat) (c : ascii) (s : string) : string :=
  repeatChar c (n - String.length s) +:+ s.

(** [String(n)] for an integral number (below 1e21 in magnitude). *)
Definition ofInt (n : Z) : string := NilZero.string_of_int (Z.to_int n).

(** [a || b] on strings: the empty string is falsy. *)
Definition orElse (a : option string) (b : string) : string :=
  match a with
  | Some s => if isEmpty s then b else s
  | None => b
  end.

(** [Math.floor], [Math.round] (ties go up) and [%] (the sign of the
    dividend) on exact rationals. *)
Definition floor (x : Q) : Z := Qfloor x.
Definition round (x : Q) : Z := Qfloor (x + (1 # 2)).
Definition trunc (x : Q) : Z :=
  if Qle_bool 0 x then Qfloor x else Qceiling x.
Definition rem (x m : Q) : Q := (x - m * inject_Z (trunc (x / m)))%Q.

End JS.

(** ** utils.ts: time conversions *)

Definition formatTime (seconds : Q) : string :=
  let hours := JS.floor (seconds / 3600) in
  let seconds := JS.rem seconds 3600 in
  let minutes := JS.floor (seconds / 60) in
  let remainingSeconds := JS.rem seconds 60 in
  let hh := JS.padStart 2 "0" (JS.ofInt hours) in
  let mm := JS.padStart 2 "0" (JS.ofInt minutes) in
  let ss := JS.padStart 2 "0" (JS.ofInt (JS.floor remainingSeconds)) in
  let ms :=
    JS.padStart 3 "0"
      (JS.ofInt
         (JS.round
            ((remainingSeconds - inject_Z (JS.floor remainingSeconds))
             * 1000)))
  in
  hh +:+ ":" +:+ mm +:+ ":" +:+ ss +:+ "." +:+ ms.

Record CueTime := { min : Z; sec : Z; frame : Z }.

Definition cueTimeToSeconds (t : CueTime) : Q :=
  (inject_Z (min t) * 60 + inject_Z (sec t) + inject_Z (frame t) / 75)%Q.

(** ** utils.ts: the tracklist parser and the CUE serializer *)

Record Track := { timestamp : string; artist : string; title : string }.

Definition after (value delimiter : string) : string :=
  if JS.isEmpty value then value
  else
    let substrings := JS.split delimiter value in
    if (length substrings =? 1)%nat then value
    else JS.join delimiter (tail substrings).

Definition lineTimestamp (line : string) : string :=
  JS.orElse (head (JS.split " " line)) "0:00".

Definition withoutTimestamp (line : string) : string :=
  JS.replaceAll JS.CR "" (after line (lineTimestamp line +:+ " ")).

(** The callback of [.map((line, index) => ...)] in [parseTracklist]. *)
Definition parseLine (index : nat) (line : string) : Track :=
  let timestamp := lineTimestamp line in
  let withoutTimestamp := withoutTimestamp line in
  let title := after withoutTimestamp " - " in
  let artist := JS.replace (" - " +:+ title) "" withoutTimestamp in
  {| timestamp := if (index =? 0)%nat then "00:00" else timestamp;
     artist := artist;
     title := title |}.

Definition parseTracklist (tracklist : string) : list Track :=
  imap parseLine (JS.split JS.LF (JS.trim tracklist)).

Definition timeToFrames (time : string) : string := time +:+ ":00".

Fixpoint generateCueTracks (i : nat) (tracks : list Track) : string :=
  match tracks with
  | [] => ""
  | track :: rest =>
      JS.TAB +:+ "TRACK "
        +:+ JS.padStart 2 "0" (JS.ofInt (Z.of_nat i + 1)) +:+ " AUDIO" +:+ JS.LF
      +:+ JS.TAB +:+ JS.TAB +:+ "TITLE " +:+ JS.QUOTE +:+ title track
        +:+ JS.QUOTE +:+ JS.LF
      +:+ JS.TAB +:+ JS.TAB +:+ "PERFORMER " +:+ JS.QUOTE +:+ artist track
        +:+ JS.QUOTE +:+ JS.LF
      +:+ JS.TAB +:+ JS.TAB +:+ "INDEX 01 " +:+ timeToFrames (timestamp track)
        +:+ JS.LF
      +:+ generateCueTracks (S i) rest
  end.

Definition generateCueFileContent
    (tracks : list Track) (albumTitle filename : string) : string :=
  let cueContent :=
    "TITLE " +:+ JS.QUOTE +:+ albumTitle +:+ JS.QUOTE +:+ JS.LF
    +:+ "FILE " +:+ JS.QUOTE +:+ filename +:+ JS.QUOTE +:+ " MP3" +:+ JS.LF
    +:+ generateCueTracks 0 tracks in
  JS.trimEnd cueContent +:+ JS.LF.

(** ** The world the program runs in *)

(** A thrown value: an [Error] built by the program, or the system error
    of a failed file-system call ([code], [syscall] and [path] as Node
    reports them). *)
Inductive Error :=
| JsError (message : string)
| SystemError (code syscall path : string).

Definition errorMessage (e : Error) : string :=
  match e with
  | JsError m => m
  | SystemError code syscall path =>
      code +:+ ": " +:+ syscall +:+ " '" +:+ path +:+ "'"
  end.

Inductive Level := Log | Warn | Err.

Inductive ConsoleArg :=
| Text (s : string)
| Obj (e : Error).

Inductive Event :=
| Console (level : Level) (args : list ConsoleArg)
| ExistsSync (path : string)
| ReadFile (path : string)
| WriteFile (path content : string)
| Mkdir (path : string)
| CueParse (path : string)
| Spawn (command : string) (args : list string).

Record World := {
  files : gmap string string;
  dirs : gset string;
  events : list Event
}.

Inductive Outcome (A : Type) :=
| Returned (a : A)
| Thrown (e : Error)
| Exited (code : Z).
Arguments Returned {A} a.
Arguments Thrown {A} e.
Arguments Exited {A} code.

Definition M (A : Type) : Type := World -> Outcome A * World.

Definition ret {A} (a : A) : M A := fun w => (Returned a, w).

Definition bind {A B} (m : M A) (k : A -> M B) : M B :=
  fun w =>
    match m w with
    | (Returned a, w') => k a w'
    | (Thrown e, w') => (Thrown e, w')
    | (Exited c, w') => (Exited c, w')
    end.

Definition throw {A} (e : Error) : M A := fun w => (Thrown e, w).

(** [process.exit(code)]: nothing after it runs, no handler sees it. *)
Definition processExit {A} (code : Z) : M A := fun w => (Exited code, w).

Definition tryCatch {A} (m : M A) (handler : Error -> M A) : M A :=
  fun w =>
    match m w with
    | (Thrown e, w') => handler e w'
    | r => r
    end.

Declare Scope js_scope.
Delimit Scope js_scope with js.
Notation "x <- m ;; k" := (bind m (fun x => k))
  (at level 100, m at next level, right associativity) : js_scope.
Notation "m ;;; k" := (bind m (fun _ => k))
  (at level 100, right associativity) : js_scope.

Definition emit (e : Event) : M unit :=
  fun w =>
    (Returned tt,
     {| files := files w; dirs := dirs w; events := events w ++ [e] |}).

Definition console (level : Level) (args : list ConsoleArg) : M unit :=
  emit (Console level args).

Definition isPresent (w : World) (path : string) : bool :=
  bool_decide (is_Some (files w !! path)) || bool_decide (path ∈ dirs w).

Definition existsSync (path : string) : M bool :=
  fun w => bind (emit (ExistsSync path)) (fun _ => ret (isPresent w path)) w.

(** [readFile(path, 'utf-8')] *)
Definition readFile (path : string) : M string :=
  fun w =>
    bind (emit (ReadFile path))
      (fun _ =>
         match files w !! path with
         | Some content => ret content
         | None =>
             if bool_decide (path ∈ dirs w)
             then throw (SystemError "EISDIR"
                           "illegal operation on a directory, read" path)
             else throw (SystemError "ENOENT"
                           "no such file or directory, open" path)
         end) w.

(** [writeFile(path, content, 'utf-8')]: fails on the empty path and on a
    directory; the parent directory is taken to exist. *)
Definition writeFile (path content : string) : M unit :=
  fun w =>
    bind (emit (WriteFile path content))
      (fun _ =>
         if JS.isEmpty path
         then throw (SystemError "ENOENT"
                       "no such file or directory, open" path)
         else if bool_decide (path ∈ dirs w)
         then throw (SystemError "EISDIR"
                       "illegal operation on a directory, open" path)
         else fun w' =>
                (Returned tt,
                 {| files := <[path := content]> (files w');
                    dirs := dirs w'; events := events w' |})) w.

(** [mkdir(path, { recursive: true })] *)
Definition mkdir (path : string) : M unit :=
  fun w =>
    bind (emit (Mkdir path))
      (fun _ w' =>
         (Returned tt,
          {| files := files w'; dirs := {[path]} ∪ dirs w';
             events := events w' |})) w.

(** ** What the collaborators hand back *)

Record CueIndex := { index_number : Z; index_time : CueTime }.

(** A track as [cue-parser] returns it.  Only [performer] is guarded by
    the program ([||]); [track] is the field the warning prints. *)
Record RawTrack := {
  raw_number : Z;
  raw_title : string;
  raw_performer : option string;
  raw_indexes : list CueIndex;
  raw_track : string
}.

Record CueFileEntry := {
  file_name : string;
  file_tracks : option (list RawTrack)
}.

Record CueSheet := {
  sheet_title : option string;
  sheet_performer : option string;
  sheet_files : option (list CueFileEntry)
}.

Inductive ParseOutcome :=
| ParseThrows (message : string)
| ParseReturns (sheet : option CueSheet).

(** How a spawned process ends: the ['error'] event (the binary could not
    be started) or the ['close'] event with the exit code ([None] when a
    signal ended it) and the chunks seen on each stream.  The files that
    the process itself writes are not tracked in the [World]. *)
Inductive SpawnOutcome :=
| SpawnError (message : string)
| SpawnClose (code : option Z) (stdout stderr : list string).

Class Env := {
  (** [cueParser.parse] on the path and the content of the file there *)
  cueParser_parse : string -> string -> ParseOutcome;
  (** [node:path] *)
  path_join : string -> string -> string;
  path_extname : string -> string;
  path_dirname : string -> string;
  path_resolve : string -> string;
  (** [child_process.spawn], awaited to its end *)
  spawn_run : string -> list string -> gmap string string -> SpawnOutcome;
  (** [parseFloat]; [None] is [NaN] *)
  parseFloat : string -> option Q;
  (** [String(x)] and [x.toFixed(2)] on a time *)
  numberToString : Q -> string;
  toFixed2 : Q -> string
}.

Definition spawn `{Env} (command : string) (args : list string)
  : M SpawnOutcome :=
  fun w => bind (emit (Spawn command args))
             (fun _ => ret (spawn_run command args (files w))) w.

Definition codeToString (code : option Z) : string :=
  match code with
  | Some c => JS.ofInt c
  | None => "null"
  end.

Definition optToString (o : option string) : string :=
  match o with
  | Some s => s
  | None => "undefined"
  end.

(** ** utils.ts: the CUE parsing adapter *)

Record CueTrack := {
  trackNumber : Z;
  track_title : string;
  trackName : string;
  performer : string;
  startTimeSeconds : Q
}.

Record ParsedCueFile := {
  album_title : option string;
  album_performer : option string;
  audioFileName : string;
  tracks : list CueTrack
}.

Fixpoint mapM {A B} (f : A -> M B) (l : list A) : M (list B) :=
  match l with
  | [] => ret []
  | x :: rest =>
      (y <- f x ;; ys <- mapM f rest ;; ret (y :: ys))%js
  end.

(** [track.indexes.find((idx) => idx.number === 1)] *)
Definition findIndex01 (indexes : list CueIndex) : option CueIndex :=
  List.find (fun idx => index_number idx =? 1) indexes.

(** The callback of [.map((track) => ...)] in [parseCueFile]. *)
Definition convertTrack (track : RawTrack) : M (option CueTrack) :=
  match findIndex01 (raw_indexes track) with
  | None =>
      (console Warn
         [Text ("Track " +:+ raw_track track +:+ " is missing INDEX 01. Skipping.")] ;;;
       ret None)%js
  | Some index01 =>
      ret (Some {| trackNumber := raw_number track;
                   trackName := raw_title track;
                   track_title := raw_title track;
                   performer := JS.orElse (raw_performer track) "Unknown Artist";
                   startTimeSeconds := cueTimeToSeconds (index_time index01) |})
  end.

(** [tracks.sort((a, b) => a.startTimeSeconds - b.startTimeSeconds)]:
    the sort of an array is stable, so with this comparator its result is
    the one of a stable insertion. *)
Definition compareTracks (a b : CueTrack) : Q :=
  (startTimeSeconds a - startTimeSeconds b)%Q.

Fixpoint insertTrack (x : CueTrack) (l : list CueTrack) : list CueTrack :=
  match l with
  | [] => [x]
  | y :: rest =>
      if Qle_bool (compareTracks x y) 0 then x :: l
      else y :: insertTrack x rest
  end.

Fixpoint sortTracks (l : list CueTrack) : list CueTrack :=
  match l with
  | [] => []
  | x :: rest => insertTrack x (sortTracks rest)
  end.

Definition cueParse `{Env} (cueFilePath : string) : M (option CueSheet) :=
  fun w =>
    bind (emit (CueParse cueFilePath))
      (fun _ =>
         match files w !! cueFilePath with
         | Some content =>
             match cueParser_parse cueFilePath content with
             | ParseThrows message => throw (JsError message)
             | ParseReturns sheet => ret sheet
             end
         | None =>
             throw (SystemError "EISDIR" "illegal operation on a directory, read"
                      cueFilePath)
         end) w.

Definition parseCueFile `{Env} (cueFilePath : string) : M ParsedCueFile :=
  (present <- existsSync cueFilePath ;;
   if negb present
   then throw (JsError ("CUE file not found: " +:+ cueFilePath))
   else
     parsedCueSheet <-
       tryCatch (cueParse cueFilePath)
         (fun error =>
            throw (JsError ("Error parsing CUE file with cue-parser: "
                            +:+ errorMessage error))) ;;
     match parsedCueSheet ≫= sheet_files with
     | None | Some [] =>
         throw (JsError ("No file entries found in CUE sheet: " +:+ cueFilePath))
     | Some (audioFileEntry :: _) =>
         let audioFileName := file_name audioFileEntry in
         match file_tracks audioFileEntry with
         | None | Some [] =>
             throw (JsError ("No tracks found for audio file '" +:+ audioFileName
                             +:+ "' in CUE sheet: " +:+ cueFilePath))
         | Some rawTracks =>
             converted <- mapM convertTrack rawTracks ;;
             let tracks := sortTracks (omap id converted) in
             ret {| album_title := parsedCueSheet ≫= sheet_title;
                    album_performer := parsedCueSheet ≫= sheet_performer;
                    audioFileName := audioFileName;
                    tracks := tracks |}
         end
     end)%js.

(** ** utils.ts: the duration probe and the extraction driver *)

Definition getMp3Duration `{Env} (filePath : string) : M Q :=
  (outcome <- spawn "ffprobe"
     ["-v"; "error"; "-show_entries"; "format=duration"; "-of";
      "default=noprint_wrappers=1:nokey=1"; filePath] ;;
   match outcome with
   | SpawnClose code stdout stderr =>
       let durationOutput := String.concat "" stdout in
       let errorOutput := String.concat "" stderr in
       if bool_decide (code = Some 0)
       then match parseFloat (JS.trim durationOutput) with
            | Some duration => ret duration
            | None =>
                throw (JsError ("Could not parse duration from ffprobe output: "
                                +:+ durationOutput +:+ ". Error: " +:+ errorOutput))
            end
       else throw (JsError ("ffprobe exited with code " +:+ codeToString code
                            +:+ ": " +:+ errorOutput))
   | SpawnError message =>
       throw (JsError ("Failed to start ffprobe process. Is 'ffprobe' installed and in your system's PATH? Error: "
                       +:+ message))
   end)%js.

Definition isAlnum (c : ascii) : bool :=
  let n := nat_of_ascii c in
  ((97 <=? n) && (n <=? 122) || (65 <=? n) && (n <=? 90)
   || (48 <=? n) && (n <=? 57))%nat.

(** The complement of the class [[^a-zA-Z0-9\s\-_.]]. *)
Definition isFileNameChar (c : ascii) : bool :=
  isAlnum c || JS.isWhiteSpace c
  || existsb (Ascii.eqb c) ["-"; "_"; "."]%char.

(** [.replace(/[^a-zA-Z0-9\s\-_.]/g, '').replace(/\s+/g, ' ').trim()] *)
Definition sanitize (s : string) : string :=
  JS.trim
    (JS.collapseWhiteSpace false
       (JS.removeClass (fun c => negb (isFileNameChar c)) s)).

Definition ffmpegArgs
    (inputFilePath : string) (albumTitle albumPerformer : option string)
    (currentTrack : CueTrack) (startTime duration : Q)
    (outputFilePath : string) : list string :=
  ["-i"; inputFilePath;
   "-ss"; formatTime startTime;
   "-t"; formatTime duration;
   "-y";
   "-c"; "copy";
   "-metadata"; "track=" +:+ JS.ofInt (trackNumber currentTrack);
   "-metadata"; "title=" +:+ trackName currentTrack;
   "-metadata"; "artist=" +:+ performer currentTrack;
   "-metadata"; "album=" +:+ optToString albumTitle;
   "-metadata"; "album_artist=" +:+ optToString albumPerformer;
   outputFilePath].

(** The promise around [spawn('ffmpeg', ffmpegArgs)]. *)
Definition runFfmpeg `{Env} (args : list string) (outputFileName : string)
  : M unit :=
  (outcome <- spawn "ffmpeg" args ;;
   match outcome with
   | SpawnClose code stdout _ =>
       mapM (fun data => console Log [Text ("ffmpeg stdout: " +:+ data)]) stdout ;;;
       if bool_decide (code = Some 0)
       then console Log [Text ("Successfully created: " +:+ outputFileName)]
       else
         let errorMessage :=
           "ffmpeg process exited with code " +:+ codeToString code +:+ " for "
           +:+ outputFileName +:+ ". Check ffmpeg stderr for details." in
         console Err [Text errorMessage] ;;; throw (JsError errorMessage)
   | SpawnError message =>
       let errorMessage :=
         "Failed to start ffmpeg process for " +:+ outputFileName
         +:+ ". Is 'ffmpeg' installed and in your system's PATH? Error: "
         +:+ message in
       console Err [Text errorMessage] ;;; throw (JsError errorMessage)
   end)%js.

(** [for (let i = start; i < start + count; i++) body], the loop state
    threaded through; a [continue] is a body that returns early. *)
Fixpoint forLoop {S : Type} (count i : nat) (body : nat -> S -> M S) (s : S)
  : M S :=
  match count with
  | O => ret s
  | Datatypes.S k => (s' <- body i s ;; forLoop k (Datatypes.S i) body s')%js
  end.

Definition splitTrack `{Env}
    (inputFilePath : string) (cueMetadata : ParsedCueFile)
    (outputDirectory : string) (totalDuration : Q) (fileExtension : string)
    (i : nat) (outputFilePaths : list string) : M (list string) :=
  match tracks cueMetadata !! i with
  | None => ret outputFilePaths
  | Some currentTrack =>
      let startTime := startTimeSeconds currentTrack in
      let nextTrack := tracks cueMetadata !! (i + 1)%nat in
      let endTime :=
        match nextTrack with
        | Some next => startTimeSeconds next
        | None => totalDuration
        end in
      if Qle_bool endTime startTime
      then
        (console Warn
           [Text ("Skipping invalid segment for track "
                  +:+ JS.ofInt (trackNumber currentTrack)
                  +:+ ": start=" +:+ numberToString startTime
                  +:+ ", end=" +:+ numberToString endTime)] ;;;
         ret outputFilePaths)%js
      else
        let duration := (endTime - startTime)%Q in
        let sanitizedTitle := sanitize (track_title currentTrack) in
        let sanitizedPerformer := sanitize (performer currentTrack) in
        let outputFileName :=
          sanitizedPerformer +:+ " - " +:+ sanitizedTitle +:+ fileExtension in
        let outputFilePath := path_join outputDirectory outputFileName in
        let outputFilePaths := outputFilePaths ++ [outputFilePath] in
        (runFfmpeg
           (ffmpegArgs inputFilePath (album_title cueMetadata)
              (album_performer cueMetadata) currentTrack startTime duration
              outputFilePath)
           outputFileName ;;;
         ret outputFilePaths)%js
  end.

Definition splitMp3WithCue `{Env}
    (inputFilePath : string) (cueMetadata : ParsedCueFile)
    (outputDirectory : string) : M (list string) :=
  (console Log [Text "splitMp3WithCue: ABOUT TO existsSync?"] ;;;
   present <- existsSync inputFilePath ;;
   if negb present
   then throw (JsError ("Input audio file not found: " +:+ inputFilePath))
   else
     let tracks := tracks cueMetadata in
     if (length tracks =? 0)%nat
     then throw (JsError "No tracks provided for splitting.")
     else
       console Log [Text ("Starting to split: " +:+ inputFilePath)] ;;;
       console Log [Text ("Number of tracks to split: "
                          +:+ JS.ofInt (Z.of_nat (length tracks)))] ;;;
       console Log [Text ("Output directory: " +:+ outputDirectory)] ;;;
       dirPresent <- existsSync outputDirectory ;;
       (if negb dirPresent then mkdir outputDirectory else ret tt) ;;;
       console Log [Text ("Ensured output directory exists: " +:+ outputDirectory)] ;;;
       totalDuration <- getMp3Duration inputFilePath ;;
       console Log [Text ("Total duration of input file: "
                          +:+ toFixed2 totalDuration +:+ " seconds")] ;;;
       let fileExtension := path_extname inputFilePath in
       outputFilePaths <-
         forLoop (length tracks) 0
           (splitTrack inputFilePath cueMetadata outputDirectory totalDuration
              fileExtension) [] ;;
       console Log [Text "MP3 splitting complete!"] ;;;
       ret outputFilePaths)%js.

(** ** utils.ts: the tracklist to CUE conversion *)

Definition convertTracklistToCue
    (inputFilePath outputFilePath albumTitle audioFilename : string) : M unit :=
  tryCatch
    (tracklistContent <- readFile inputFilePath ;;
     let tracks := parseTracklist tracklistContent in
     let cueFileContent :=
       generateCueFileContent tracks albumTitle audioFilename in
     writeFile outputFilePath cueFileContent ;;;
     console Log [Text ("Successfully created CUE file at: " +:+ outputFilePath)])%js
    (fun error => console Err [Text "Error processing files:"; Obj error]).

(** ** The command-line entry points *)

(** [!x] on [process.argv[i]]: absent or empty. *)
Definition missing (arg : option string) : bool :=
  match arg with
  | Some s => JS.isEmpty s
  | None => true
  end.

(** The value of an argument that the guard has let through.  An absent
    [argv[4]] next to a present [argv[5]] cannot occur. *)
Definition argString (arg : option string) : string := default "" arg.

Definition installHint : string :=
  "Please ensure you have " +:+ JS.QUOTE +:+ "ffmpeg" +:+ JS.QUOTE +:+ " and "
  +:+ JS.QUOTE +:+ "ffprobe" +:+ JS.QUOTE
  +:+ " installed and available in your system's PATH, and that the CUE file and its referenced MP3 file exist.".

(** The [try] block shared by [cue2mp3.ts] and [tracklist2mp3.ts]. *)
Definition parseAndSplit `{Env} (cueFile outputFolder : string) : M unit :=
  tryCatch
    (console Log [Text ("Parsing CUE file: " +:+ cueFile)] ;;;
     parsedCue <- parseCueFile cueFile ;;
     let cueDir := path_dirname (path_resolve cueFile) in
     let inputMp3Path := path_join cueDir (audioFileName parsedCue) in
     console Log [Text ("Input MP3 file from CUE: " +:+ inputMp3Path)] ;;;
     console Log [Text ("Found " +:+ JS.ofInt (Z.of_nat (length (tracks parsedCue)))
                        +:+ " tracks.")] ;;;
     generatedFiles <- splitMp3WithCue inputMp3Path parsedCue outputFolder ;;
     console Log [Text (JS.LF +:+ "Generated MP3 files:")] ;;;
     mapM (fun file => console Log [Text file]) generatedFiles ;;;
     ret tt)%js
    (fun error =>
       (console Err [Text (JS.LF +:+ "An error occurred: " +:+ errorMessage error)] ;;;
        console Err [Text installHint])%js).

Module Tracklist2cue.

Definition usage : string :=
  "Usage: pnpm tracklist2cue <path/to/your/tracklist.txt> <path/to/your/audio.mp3> <path/to/output/cue_file.cue> "
  +:+ JS.QUOTE +:+ "album title" +:+ JS.QUOTE.

Definition main (argv : list string) : M unit :=
  let tracklistFile := argv !! 2%nat in
  let audioFile := argv !! 3%nat in
  let outputCueFile := argv !! 4%nat in
  let albumTitle := argv !! 5%nat in
  if missing tracklistFile || missing audioFile || missing albumTitle
  then (console Err [Text usage] ;;; processExit 1)%js
  else
    convertTracklistToCue (argString tracklistFile) (argString outputCueFile)
      (argString albumTitle) (argString audioFile).

(** [main().catch(console.error)] *)
Definition program (argv : list string) : M unit :=
  tryCatch (main argv) (fun error => console Err [Obj error]).

End Tracklist2cue.

Module Tracklist2mp3.

Definition usage : string :=
  "Usage: pnpm tracklist2mp3 <path/to/your/tracklist.txt> <path/to/your/audio.mp3> "
  +:+ JS.QUOTE +:+ "album title" +:+ JS.QUOTE
  +:+ " <path/to/your/output_folder>".

Definition main `{Env} (argv : list string) : M unit :=
  let tracklistFile := argv !! 2%nat in
  let audioFile := argv !! 3%nat in
  let albumTitle := argv !! 4%nat in
  let outputFolder := argv !! 5%nat in
  if missing tracklistFile || missing audioFile || missing albumTitle
     || missing outputFolder
  then (console Err [Text usage] ;;; processExit 1)%js
  else
    let outputCueFile :=
      path_join (argString outputFolder)
        (default "" (head (JS.split "." (argString tracklistFile))) +:+ ".cue") in
    (convertTracklistToCue (argString tracklistFile) outputCueFile
       (argString albumTitle) (argString audioFile) ;;;
     parseAndSplit outputCueFile (argString outputFolder))%js.

Definition program `{Env} (argv : list string) : M unit :=
  tryCatch (main argv) (fun error => console Err [Obj error]).

End Tracklist2mp3.

Module Cue2mp3.

Definition usage : string :=
  "Usage: pnpm cue2mp3 <path/to/your/cue_file.cue> <path/to/your/output_folder>".

Definition main `{Env} (argv : list string) : M unit :=
  let cueFile := argv !! 2%nat in
  let outputFolder := argv !! 3%nat in
  if missing cueFile || missing outputFolder
  then (console Err [Text usage] ;;; processExit 1)%js
  else parseAndSplit (argString cueFile) (argString outputFolder).

Definition program `{Env} (argv : list string) : M unit := main argv.

End Cue2mp3.

(** ** Vocabulary of the statements *)

(** [d] occurs in [s]. *)
Definition contains (d s : string) : Prop :=
  exists a b, s = a +:+ d +:+ b.

(** The lines [parseTracklist] maps over. *)
Definition tracklistLines (tracklist : string) : list string :=
  JS.split JS.LF (JS.trim tracklist).

(** The world after [evs] have happened on top of [w]. *)
Definition logged (w : World) (evs : list Event) : World :=
  {| files := files w; dirs := dirs w; events := events w ++ evs |}.

Definition emptyWorld : World := {| files := ∅; dirs := ∅; events := [] |}.

(** What [convertTracklistToCue] leaves in the trace when the tracklist
    cannot be read: the failed read and the caught error on the error
    stream. *)
Definition unreadableTracklist (inputFilePath : string) : list Event :=
  [ReadFile inputFilePath;
   Console Err
     [Text "Error processing files:";
      Obj (SystemError "ENOENT" "no such file or directory, open" inputFilePath)]].

(** Sample collaborators, for running the program on concrete inputs:
    [parse] and [run] stand for the CUE grammar parser and the binaries. *)
Definition sampleEnv
    (parse : string -> string -> ParseOutcome)
    (run : string -> list string -> gmap string string -> SpawnOutcome) : Env :=
  {| cueParser_parse := parse;
     path_join := fun a b => a +:+ "/" +:+ b;
     path_extname := fun _ => ".mp3";
     path_dirname := fun _ => ".";
     path_resolve := fun p => p;
     spawn_run := run;
     parseFloat := fun s => if String.eqb s "120" then Some 120%Q else None;
     numberToString := fun _ => "<number>";
     toFixed2 := fun _ => "<number>" |}.

Definition noParser : string -> string -> ParseOutcome :=
  fun _ _ => ParseThrows "no sheet".

Definition noBinary : string -> list string -> gmap string string -> SpawnOutcome :=
  fun _ _ _ => SpawnError "spawn ENOENT".

(** The value [convertTrack] returns, and the warnings it prints on the
    way over a list of tracks. *)
Definition trackOf (track : RawTrack) : option CueTrack :=
  match findIndex01 (raw_indexes track) with
  | None => None
  | Some index01 =>
      Some {| trackNumber := raw_number track;
              trackName := raw_title track;
              track_title := raw_title track;
              performer := JS.orElse (raw_performer track) "Unknown Artist";
              startTimeSeconds := cueTimeToSeconds (index_time index01) |}
  end.

Definition indexWarnings (rawTracks : list RawTrack) : list Event :=
  omap (fun track =>
          match findIndex01 (raw_indexes track) with
          | None =>
              Some (Console Warn
                      [Text ("Track " +:+ raw_track track
                             +:+ " is missing INDEX 01. Skipping.")])
          | Some _ => None
          end) rawTracks.

(** What [parseCueFile] returns for the sheet, its first FILE entry and
    the tracks of that entry. *)
Definition parsedCue
    (sheet : CueSheet) (entry : CueFileEntry) (rawTracks : list RawTrack)
  : ParsedCueFile :=
  {| album_title := sheet_title sheet;
     album_performer := sheet_performer sheet;
     audioFileName := file_name entry;
     tracks := sortTracks (omap trackOf rawTracks) |}.

(** Ascending by start time. *)
Definition byStartTime (a b : CueTrack) : Prop :=
  (startTimeSeconds a <= startTimeSeconds b)%Q.

Fixpoint ascending (l : list Q) : bool :=
  match l with
  | x :: (y :: _) as rest => Qle_bool x y && ascending rest
  | _ => true
  end.





(** A sample sheet with two FILE entries; in the first, the tracks are
    out of order and one has no index number 1. *)
Definition sampleRawTrack
    (number : Z) (name : string) (by_ : option string)
    (indexNumber : Z) (time : CueTime) : RawTrack :=
  {| raw_number := number; raw_title := name; raw_performer := by_;
     raw_indexes := [{| index_number := indexNumber; index_time := time |}];
     raw_track := "undefined" |}.

Definition sampleFirstFile : CueFileEntry :=
  {| file_name := "side-a.mp3";
     file_tracks :=
       Some [sampleRawTrack 1 "Late" (Some "A") 1 {| min := 5; sec := 0; frame := 0 |};
             sampleRawTrack 2 "Early" None 1 {| min := 0; sec := 0; frame := 0 |};
             sampleRawTrack 3 "Pregap only" (Some "C") 0
               {| min := 7; sec := 0; frame := 0 |}] |}.

Definition sampleSecondFile : CueFileEntry :=
  {| file_name := "side-b.mp3";
     file_tracks :=
       Some [sampleRawTrack 4 "Other side" (Some "D") 1
               {| min := 1; sec := 0; frame := 0 |}] |}.

Definition sampleSheet : CueSheet :=
  {| sheet_title := Some "Mix"; sheet_performer := None;
     sheet_files := Some [sampleFirstFile; sampleSecondFile] |}.

Definition sampleParser : string -> string -> ParseOutcome :=
  fun _ _ => ParseReturns (Some sampleSheet).

Definition sampleCueWorld : World :=
  {| files := {[ "mix.cue" := "(a sheet with two FILE entries)" ]};
     dirs := ∅; events := [] |}.





(** ** The segment plan *)

Record TrackWindow := {
  window_track : CueTrack;
  startSeconds : Q;
  endSeconds : Q
}.

(** One window per track: from the start of the track to the start of the
    next one, the last one to the total duration. *)
Fixpoint windows (tracks : list CueTrack) (totalDuration : Q)
  : list TrackWindow :=
  match tracks with
  | [] => []
  | track :: rest =>
      {| window_track := track;
         startSeconds := startTimeSeconds track;
         endSeconds :=
           match rest with
           | next :: _ => startTimeSeconds next
           | [] => totalDuration
           end |}
      :: windows rest totalDuration
  end.

(** [startSeconds >= endSeconds] *)
Definition degenerate (win : TrackWindow) : bool :=
  Qle_bool (endSeconds win) (startSeconds win).

Definition proper (win : TrackWindow) : bool := negb (degenerate win).

Definition windowFileName (fileExtension : string) (win : TrackWindow)
  : string :=
  sanitize (performer (window_track win)) +:+ " - "
  +:+ sanitize (track_title (window_track win)) +:+ fileExtension.

Definition windowPath `{Env} (inputFilePath outputDirectory : string)
    (win : TrackWindow) : string :=
  path_join outputDirectory
    (windowFileName (path_extname inputFilePath) win).

(** The extraction request for a window: the arguments [ffmpeg] gets. *)
Definition extractionRequest `{Env}
    (inputFilePath : string) (cueMetadata : ParsedCueFile)
    (outputDirectory : string) (win : TrackWindow) : list string :=
  ffmpegArgs inputFilePath (album_title cueMetadata)
    (album_performer cueMetadata) (window_track win) (startSeconds win)
    (endSeconds win - startSeconds win)%Q
    (windowPath inputFilePath outputDirectory win).

Definition skipWarning `{Env} (win : TrackWindow) : Event :=
  Console Warn
    [Text ("Skipping invalid segment for track "
           +:+ JS.ofInt (trackNumber (window_track win))
           +:+ ": start=" +:+ numberToString (startSeconds win)
           +:+ ", end=" +:+ numberToString (endSeconds win))].

(** The extraction requests and the warnings among some events. *)
Definition ffmpegRequest (e : Event) : option (list string) :=
  match e with
  | Spawn command args => if String.eqb command "ffmpeg" then Some args else None
  | _ => None
  end.

Definition ffmpegRequests (evs : list Event) : list (list string) :=
  omap ffmpegRequest evs.

Definition isWarning (e : Event) : bool :=
  match e with
  | Console Warn _ => true
  | _ => false
  end.

Definition warningsOf (evs : list Event) : list Event := List.filter isWarning evs.

Definition ffprobeArgs (filePath : string) : list string :=
  ["-v"; "error"; "-show_entries"; "format=duration"; "-of";
   "default=noprint_wrappers=1:nokey=1"; filePath].

(** Three tracks that start at 0, 30 and 90 seconds. *)
Definition sampleTrack (number : Z) (start : Q) : CueTrack :=
  {| trackNumber := number; track_title := "Title"; trackName := "Title";
     performer := "Artist"; startTimeSeconds := start |}.

Definition sampleTracks : list CueTrack :=
  [sampleTrack 1 0; sampleTrack 2 30; sampleTrack 3 90].

Definition sampleParsed : ParsedCueFile :=
  {| album_title := Some "Mix"; album_performer := None;
     audioFileName := "mix.mp3"; tracks := sampleTracks |}.

(** Binaries that do their work: [ffprobe] prints 120, [ffmpeg] ends
    with code 0. *)
Definition sampleBinaries
  : string -> list string -> gmap string string -> SpawnOutcome :=
  fun command _ _ =>
    if String.eqb command "ffprobe" then SpawnClose (Some 0) ["120"; JS.LF] []
    else SpawnClose (Some 0) [] [].

Definition sampleAudioWorld : World :=
  {| files := {[ "mix.mp3" := "(audio)" ]}; dirs := ∅; events := [] |}.

(** The text of a clock with the given fields, and whether [k] fills
    exactly [n] digits once padded. *)
Definition clockText (h m c ms : Z) : string :=
  JS.padStart 2 "0" (JS.ofInt h) +:+ ":" +:+ JS.padStart 2 "0" (JS.ofInt m)
  +:+ ":" +:+ JS.padStart 2 "0" (JS.ofInt c) +:+ "."
  +:+ JS.padStart 3 "0" (JS.ofInt ms).

Definition width (n : nat) (k : Z) : bool :=
  (String.length (JS.padStart n "0" (JS.ofInt k)) =? n)%nat.

(** [s] ends with a code unit that is not white space. *)
Definition endsSolid (s : string) : Prop :=
  exists u c, s = u +:+ String c "" /\ JS.isWhiteSpace c = false.

(** The world after a successful [convertTracklistToCue]. *)
Definition converted
    (w : World) (inputFilePath outputFilePath text : string) : World :=
  {| files := <[outputFilePath := text]> (files w);
     dirs := dirs w;
     events :=
       events w
       ++ [ReadFile inputFilePath; WriteFile outputFilePath text;
           Console Log
             [Text ("Successfully created CUE file at: " +:+ outputFilePath)]] |}.

(** The track has an index number 1. *)
Definition hasIndex01 (track : RawTrack) : bool :=
  match findIndex01 (raw_indexes track) with
  | Some _ => true
  | None => false
  end.

(** What [parseCueFile] may leave in the trace: the look at the path, the
    call of the grammar parser and warnings. *)
Definition adapterEvent (cueFilePath : string) (e : Event) : Prop :=
  e = ExistsSync cueFilePath \/ e = CueParse cueFilePath \/ isWarning e = true.

(** Sample parsers: one that returns a sheet without FILE entry, and one
    whose sheet has a single track, with a pregap index only. *)
Definition emptySheetParser : string -> string -> ParseOutcome :=
  fun _ _ =>
    ParseReturns (Some {| sheet_title := None; sheet_performer := None;
                          sheet_files := Some [] |}).

Definition noIndexFile : CueFileEntry :=
  {| file_name := "mix.mp3";
     file_tracks :=
       Some [sampleRawTrack 1 "Pregap only" (Some "A") 0
               {| min := 0; sec := 0; frame := 0 |}] |}.

Definition noIndexSheet : CueSheet :=
  {| sheet_title := None; sheet_performer := None;
     sheet_files := Some [noIndexFile] |}.

Definition noIndexParser : string -> string -> ParseOutcome :=
  fun _ _ => ParseReturns (Some noIndexSheet).

(** The process ended with exit code 0. *)
Definition succeeds (outcome : SpawnOutcome) : bool :=
  match outcome with
  | SpawnClose (Some 0) _ _ => true
  | _ => false
  end.

(** What [getMp3Duration] makes of the way [ffprobe] ended. *)
Definition probeResult `{Env} (outcome : SpawnOutcome) : Outcome Q :=
  match outcome with
  | SpawnClose code stdout stderr =>
      if bool_decide (code = Some 0)
      then match parseFloat (JS.trim (String.concat "" stdout)) with
           | Some duration => Returned duration
           | None =>
               Thrown (JsError ("Could not parse duration from ffprobe output: "
                                +:+ String.concat "" stdout +:+ ". Error: "
                                +:+ String.concat "" stderr))
           end
      else Thrown (JsError ("ffprobe exited with code " +:+ codeToString code
                            +:+ ": " +:+ String.concat "" stderr))
  | SpawnError message =>
      Thrown (JsError ("Failed to start ffprobe process. Is 'ffprobe' installed and in your system's PATH? Error: "
                       +:+ message))
  end.

(** The part of [splitMp3WithCue] from the duration probe on. *)
Definition splitFromProbe `{Env}
    (inputFilePath : string) (cueMetadata : ParsedCueFile)
    (outputDirectory : string) : M (list string) :=
  (totalDuration <- getMp3Duration inputFilePath ;;
   console Log [Text ("Total duration of input file: "
                      +:+ toFixed2 totalDuration +:+ " seconds")] ;;;
   outputFilePaths <-
     forLoop (length (tracks cueMetadata)) 0
       (splitTrack inputFilePath cueMetadata outputDirectory totalDuration
          (path_extname inputFilePath)) [] ;;
   console Log [Text "MP3 splitting complete!"] ;;;
   ret outputFilePaths)%js.

(** The events of [w'] that came after those of [w]. *)
Definition since (w w' : World) : list Event :=
  drop (length (events w)) (events w').

(** Binaries of which [ffprobe] fails, and binaries of which [ffmpeg]
    fails on the track whose number is 2. *)
Definition probeFails
  : string -> list string -> gmap string string -> SpawnOutcome :=
  fun command _ _ =>
    if String.eqb command "ffprobe" then SpawnClose (Some 1) [] ["no such file"]
    else SpawnClose (Some 0) [] [].

Definition secondTrackFails
  : string -> list string -> gmap string string -> SpawnOutcome :=
  fun command args _ =>
    if String.eqb command "ffprobe" then SpawnClose (Some 0) ["120"; JS.LF] []
    else if bool_decide (args !! 10%nat = Some "track=2")
         then SpawnClose (Some 1) [] []
         else SpawnClose (Some 0) [] [].

Fixpoint strictlyAscending (l : list Q) : bool :=
  match l with
  | x :: (y :: _) as rest => negb (Qle_bool y x) && strictlyAscending rest
  | _ => true
  end.


(** Only white space. *)
Definition blank (s : string) : Prop :=
  forall c, In c (list_ascii_of_string s) -> JS.isWhiteSpace c = true.

(** A word: not empty and without white space. *)
Definition isWord (w : string) : Prop :=
  w <> "" /\ forall c, In c (list_ascii_of_string w) -> JS.isWhiteSpace c = false.


(** The code units of [s] that satisfy [keep], in order. *)
Fixpoint keepChars (keep : ascii -> bool) (s : string) : string :=
  match s with
  | EmptyString => EmptyString
  | String c s' =>
      if keep c then String c (keepChars keep s') else keepChars keep s'
  end.

(** The words of [s]: its maximal runs of code units that are not white
    space.  [cur] is the word being read. *)
Fixpoint words_from (cur s : string) : list string :=
  match s with
  | EmptyString => if JS.isEmpty cur then [] else [cur]
  | String c s' =>
      if JS.isWhiteSpace c
      then if JS.isEmpty cur then words_from "" s'
           else cur :: words_from "" s'
      else words_from (cur +:+ String c "") s'
  end.

Definition wordsOf (s : string) : list string := words_from "" s.

(** A string without white space. *)
Definition solid (s : string) : Prop :=
  forall c, In c (list_ascii_of_string s) -> JS.isWhiteSpace c = false.

(** * Facts about the string primitives *)

Section StringFacts.

Lemma append_empty_r (s : string) : s +:+ "" = s.
Proof. induction s as [|c s IH]; simpl; [reflexivity | now f_equal]. Qed.

Lemma append_assoc (a b c : string) : (a +:+ b) +:+ c = a +:+ (b +:+ c).
Proof. induction a as [|x a IH]; simpl; [reflexivity | now f_equal]. Qed.

Lemma append_length (a b : string) :
  String.length (a +:+ b) = (String.length a + String.length b)%nat.
Proof. induction a as [|x a IH]; simpl; [reflexivity | now f_equal]. Qed.

Lemma prefix_append (p r : string) : String.prefix p (p +:+ r) = true.
Proof.
  induction p as [|c p IH]; simpl.
  - now destruct r.
  - destruct (ascii_dec c c) as [_|Hne]; [exact IH | now elim Hne].
Qed.

Lemma prefix_inv (p s : string) :
  String.prefix p s = true -> s = p +:+ JS.drop (String.length p) s.
Proof.
  revert s. induction p as [|c p IH]; intros s Hp; simpl.
  - reflexivity.
  - destruct s as [|d s]; simpl in Hp; [discriminate|].
    destruct (ascii_dec c d) as [->|_]; [|discriminate].
    simpl. f_equal. now apply IH.
Qed.

Lemma prefix_contains (p s : string) :
  String.prefix p s = true -> contains p s.
Proof.
  intros Hp. exists "", (JS.drop (String.length p) s). simpl.
  now apply prefix_inv.
Qed.

Lemma prefix_length (p s : string) :
  String.prefix p s = true -> (String.length p <= String.length s)%nat.
Proof.
  intros Hp. rewrite (prefix_inv _ _ Hp), append_length. lia.
Qed.

Lemma contains_tail (d s : string) (c : ascii) :
  contains d s -> contains d (String c s).
Proof. intros (a & b & ->). now exists (String c a), b. Qed.

Lemma split_from_cons (sep : string) (skip : nat) (cur s : string) :
  exists x rest, JS.split_from sep skip cur s = x :: rest.
Proof.
  revert skip cur.
  induction s as [|c s IH]; intros skip cur; cbn [JS.split_from].
  - eauto.
  - destruct skip as [|k]; [|apply IH].
    destruct (String.prefix sep (String c s)); [eauto | apply IH].
Qed.

Lemma split_cons (sep s : string) :
  sep <> "" -> exists x rest, JS.split sep s = x :: rest.
Proof.
  intros Hsep. unfold JS.split. destruct sep; [congruence|]. simpl.
  apply split_from_cons.
Qed.

(** Without an occurrence of the separator there is one piece. *)
Lemma split_from_absent (sep cur s : string) :
  ~ contains sep s -> JS.split_from sep 0 cur s = [cur +:+ s].
Proof.
  revert cur.
  induction s as [|c s IH]; intros cur Habs; cbn [JS.split_from].
  - now rewrite append_empty_r.
  - destruct (String.prefix sep (String c s)) eqn:Hp.
    + elim Habs. now apply prefix_contains.
    + rewrite IH, append_assoc; [reflexivity|].
      intros Hc. apply Habs. now apply contains_tail.
Qed.

Lemma after_absent (value delimiter : string) :
  delimiter <> "" -> ~ contains delimiter value ->
  after value delimiter = value.
Proof.
  intros Hd Habs. unfold after.
  destruct (JS.isEmpty value); [reflexivity|].
  unfold JS.split. destruct delimiter as [|d ds]; [congruence|].
  cbn [JS.isEmpty]. now rewrite split_from_absent.
Qed.

(** A pattern longer than the string is not found. *)
Lemma replace_longer (pat rep s : string) :
  (String.length s < String.length pat)%nat -> JS.replace pat rep s = s.
Proof.
  induction s as [|c s IH]; intros Hlen.
  - cbn [JS.replace]. destruct (String.prefix pat "") eqn:Hp; [|reflexivity].
    apply prefix_length in Hp. lia.
  - cbn [JS.replace].
    destruct (String.prefix pat (String c s)) eqn:Hp.
    + apply prefix_length in Hp. lia.
    + f_equal. apply IH. simpl in Hlen. lia.
Qed.

Lemma join_cons2 (sep x y : string) (l : list string) :
  JS.join sep (x :: y :: l) = x +:+ sep +:+ JS.join sep (y :: l).
Proof. reflexivity. Qed.

Lemma drop_empty (n : nat) : JS.drop n "" = "".
Proof. now destruct n. Qed.

(** Joining the pieces with the separator gives the string back. *)
Lemma join_split_from (sep : string) (skip : nat) (cur s : string) :
  sep <> "" ->
  JS.join sep (JS.split_from sep skip cur s) = cur +:+ JS.drop skip s.
Proof.
  intros Hsep. revert skip cur.
  induction s as [|c s IH]; intros skip cur; cbn [JS.split_from].
  - now rewrite drop_empty, append_empty_r.
  - destruct skip as [|k]; [|now rewrite IH].
    destruct (String.prefix sep (String c s)) eqn:Hp.
    + destruct (split_from_cons sep (String.length sep - 1) "" s)
        as (x & rest & Hx).
      pose proof (IH (String.length sep - 1)%nat "") as Hj.
      rewrite Hx in *. rewrite join_cons2, Hj.
      apply prefix_inv in Hp. destruct sep as [|d sep]; [congruence|].
      cbn [String.length JS.drop] in *.
      replace (S (String.length sep) - 1)%nat with (String.length sep) by lia.
      f_equal. exact (eq_sym Hp).
    + rewrite IH. cbn [JS.drop]. now rewrite append_assoc.
Qed.

(** The first piece of a split at spaces is what stands before the first
    space. *)
Lemma split_space_head (cur ts rest : string) :
  ~ contains " " ts ->
  JS.split_from " " 0 cur (ts +:+ " " +:+ rest)
  = (cur +:+ ts) :: JS.split_from " " 0 "" rest.
Proof.
  revert cur. induction ts as [|c ts IH]; intros cur Hts.
  - simpl. rewrite append_empty_r.
    now replace (String.prefix "" rest) with true by now destruct rest.
  - change (String c ts +:+ " " +:+ rest)
      with (String c (ts +:+ " " +:+ rest)).
    cbn [JS.split_from].
    destruct (String.prefix " " (String c (ts +:+ " " +:+ rest))) eqn:Hp.
    + elim Hts. cbn [String.prefix] in Hp.
      destruct (ascii_dec " " c) as [<-|]; [|discriminate].
      now exists "", ts.
    + rewrite IH by (intros Hc; apply Hts; now apply contains_tail).
      now rewrite append_assoc.
Qed.

Lemma lineTimestamp_token (ts rest : string) :
  ts <> "" -> ~ contains " " ts ->
  lineTimestamp (ts +:+ " " +:+ rest) = ts.
Proof.
  intros Hne Hts. unfold lineTimestamp, JS.split. cbn [JS.isEmpty].
  rewrite split_space_head by assumption. simpl.
  now destruct ts.
Qed.

Lemma drop_append (a b : string) : JS.drop (String.length a) (a +:+ b) = b.
Proof. induction a as [|c a IH]; [reflexivity | exact IH]. Qed.

(** What follows a leading delimiter. *)
Lemma after_prefix (sep rest : string) :
  sep <> "" -> after (sep +:+ rest) sep = rest.
Proof.
  intros Hsep. unfold after, JS.split.
  pose proof (prefix_append sep rest) as Hp.
  pose proof (drop_append sep rest) as Hd.
  destruct sep as [|d sep]; [congruence|].
  change (String d sep +:+ rest) with (String d (sep +:+ rest)) in *.
  cbn [JS.isEmpty JS.split_from]. rewrite Hp.
  destruct (split_from_cons (String d sep) (String.length (String d sep) - 1)
              "" (sep +:+ rest)) as (x & l & Hx).
  pose proof (join_split_from (String d sep)
                (String.length (String d sep) - 1) "" (sep +:+ rest) Hsep)
    as Hj.
  rewrite Hx in *. cbn [length tail Nat.eqb]. rewrite Hj.
  cbn [String.length JS.drop] in *.
  replace (S (String.length sep) - 1)%nat with (String.length sep) by lia.
  exact Hd.
Qed.

(** On a line [<timestamp> <rest>] the remainder is [rest], its carriage
    returns removed. *)
Lemma withoutTimestamp_token (ts rest : string) :
  ts <> "" -> ~ contains " " ts ->
  withoutTimestamp (ts +:+ " " +:+ rest) = JS.replaceAll JS.CR "" rest.
Proof.
  intros Hne Hts. unfold withoutTimestamp. f_equal.
  rewrite lineTimestamp_token by assumption.
  rewrite <- append_assoc. apply after_prefix.
  destruct ts; [congruence | discriminate].
Qed.

Lemma contains_length (d s : string) :
  contains d s -> (String.length d <= String.length s)%nat.
Proof. intros (a & b & ->). rewrite !append_length. lia. Qed.

(** A line without any space is its own timestamp and its own
    remainder. *)
Lemma withoutTimestamp_no_space (line : string) :
  line <> "" -> ~ contains " " line ->
  lineTimestamp line = line
  /\ withoutTimestamp line = JS.replaceAll JS.CR "" line.
Proof.
  intros Hne Hsp.
  assert (lineTimestamp line = line) as Hts.
  { unfold lineTimestamp, JS.split. cbn [JS.isEmpty].
    rewrite split_from_absent by assumption. simpl. now destruct line. }
  split; [exact Hts|]. unfold withoutTimestamp. rewrite Hts. f_equal.
  apply after_absent.
  - now destruct line.
  - intros Hc%contains_length. rewrite append_length in Hc. simpl in Hc. lia.
Qed.

Lemma includes_false_absent (d s : string) :
  JS.includes d s = false -> ~ contains d s.
Proof.
  intros Hinc (a & b & ->). revert Hinc.
  induction a as [|c a IH]; intros Hinc.
  - destruct (d +:+ b) eqn:E; cbn [JS.includes String.append] in Hinc;
      rewrite <- E, prefix_append in Hinc; discriminate.
  - change (String c a +:+ d +:+ b) with (String c (a +:+ d +:+ b)) in Hinc.
    cbn [JS.includes] in Hinc. apply orb_false_elim in Hinc as [_ Hinc].
    now apply IH.
Qed.

End StringFacts.

(** * The tracklist parser *)

Section TracklistParser.

Example parseTracklist_sample :
  parseTracklist ("0:30 A - B" +:+ JS.LF +:+ "3:45 C - D - E" +:+ JS.CR)
  = [ {| timestamp := "00:00"; artist := "A"; title := "B" |};
      {| timestamp := "3:45"; artist := "C"; title := "D - E" |} ].
Proof. vm_compute. reflexivity. Qed.

(** C3.  Whatever the tracklist text, [parseTracklist] returns at least one
    entry and the timestamp of the first entry is ["00:00"], whatever
    timestamp the first line carries. *)
Theorem parseTracklist_first_timestamp (tracklist : string) :
  exists first rest,
    parseTracklist tracklist = first :: rest /\ timestamp first = "00:00".
Proof.
  unfold parseTracklist.
  destruct (split_cons JS.LF (JS.trim tracklist)) as (line & rest & ->);
    [discriminate|].
  now exists (parseLine 0 line), (imap (parseLine ∘ S) rest).
Qed.

(** C2, as the code has it.  For a line whose remainder after the
    timestamp holds no [" - "], the entry's title is the whole remainder
    and its artist is that same remainder (and so is empty only when the
    remainder is). *)
Theorem parseTracklist_no_delimiter
    (tracklist : string) (i : nat) (line : string) :
  tracklistLines tracklist !! i = Some line ->
  JS.includes " - " (withoutTimestamp line) = false ->
  exists entry,
    parseTracklist tracklist !! i = Some entry
    /\ title entry = withoutTimestamp line
    /\ artist entry = withoutTimestamp line.
Proof.
  intros Hline Habs%includes_false_absent.
  unfold parseTracklist. fold (tracklistLines tracklist).
  rewrite list_lookup_imap, Hline. cbn [fmap option_fmap option_map].
  eexists; split; [reflexivity|].
  unfold parseLine; cbn [title artist].
  rewrite after_absent by (discriminate || assumption).
  split; [reflexivity|].
  apply replace_longer. rewrite append_length. cbn [String.length]. lia.
Qed.

Lemma parseTracklist_no_delimiter_witness :
  exists entry,
    parseTracklist "0:00 Intro" !! 0%nat = Some entry
    /\ title entry = withoutTimestamp "0:00 Intro"
    /\ artist entry = withoutTimestamp "0:00 Intro".
Proof.
  apply (parseTracklist_no_delimiter "0:00 Intro" 0 "0:00 Intro");
    reflexivity.
Defined.

(** C2, as the claim words it, fails: on the one-line tracklist
    [0:00 Intro] the artist is ["Intro"], not the empty string. *)
Lemma parseTracklist_no_delimiter_artist_empty_fails :
  ~ (forall (tracklist : string) (i : nat) (line : string),
        tracklistLines tracklist !! i = Some line ->
        JS.includes " - " (withoutTimestamp line) = false ->
        exists entry,
          parseTracklist tracklist !! i = Some entry
          /\ artist entry = ""
          /\ title entry = withoutTimestamp line).
Proof.
  intros H.
  destruct (H "0:00 Intro" 0%nat "0:00 Intro" eq_refl eq_refl)
    as (entry & Hentry & Hartist & _).
  vm_compute in Hentry. injection Hentry as <-. discriminate Hartist.
Qed.

End TracklistParser.

(** * File-name sanitization *)

Section Sanitize.

Lemma removeClass_keepChars (keep : ascii -> bool) (s : string) :
  JS.removeClass (fun c => negb (keep c)) s = keepChars keep s.
Proof.
  induction s as [|c s IH]; simpl; [reflexivity|].
  destruct (keep c); simpl; now rewrite IH.
Qed.

Lemma trimStart_collapse (inRun : bool) (s : string) :
  JS.trimStart (JS.collapseWhiteSpace inRun s) = JS.collapseWhiteSpace true s.
Proof.
  revert inRun. induction s as [|c s IH]; intros inRun; simpl; [reflexivity|].
  destruct (JS.isWhiteSpace c) eqn:Hc.
  - destruct inRun; [apply IH|]. simpl. apply IH.
  - simpl. now rewrite Hc.
Qed.

Lemma solid_snoc (s : string) (c : ascii) :
  solid s -> JS.isWhiteSpace c = false -> solid (s +:+ String c "").
Proof.
  intros Hs Hc. induction s as [|d s IH]; intros x; simpl.
  - intros [<-|[]]. exact Hc.
  - intros [<-|Hx]; [apply Hs; now left|].
    apply IH; [|exact Hx]. intros y Hy. apply Hs. now right.
Qed.

Lemma trimEnd_solid (s : string) : solid s -> JS.trimEnd s = s.
Proof.
  induction s as [|c s IH]; intros Hs; simpl; [reflexivity|].
  rewrite (Hs c) by now left. simpl. f_equal. apply IH.
  intros y Hy. apply Hs. now right.
Qed.

Lemma trimEnd_append (a b : string) :
  JS.trimEnd (a +:+ b)
  = if JS.isEmpty (JS.trimEnd b) then JS.trimEnd a else a +:+ JS.trimEnd b.
Proof.
  induction a as [|c a IH]; simpl.
  - now destruct (JS.trimEnd b).
  - rewrite IH. destruct (JS.trimEnd b) eqn:Hb; simpl; [reflexivity|].
    destruct a; simpl; now rewrite andb_false_r.
Qed.

Lemma words_from_head (cur s w : string) (rest : list string) :
  words_from cur s = w :: rest -> w <> "".
Proof.
  revert cur. induction s as [|c s IH]; intros cur; simpl.
  - destruct cur; simpl; [discriminate|]. now intros [= <- _].
  - destruct (JS.isWhiteSpace c).
    + destruct cur; simpl; [apply IH|]. now intros [= <- _].
    + apply IH.
Qed.

Lemma join_head_nonempty (sep w : string) (rest : list string) :
  w <> "" -> JS.isEmpty (JS.join sep (w :: rest)) = false.
Proof.
  intros Hw. destruct w; [congruence|]. now destruct rest.
Qed.

(** Collapsing the runs of white space and trimming leaves the words,
    one space between two of them. *)
Lemma collapse_words (s : string) :
  JS.trimEnd (JS.collapseWhiteSpace true s) = JS.join " " (words_from "" s)
  /\ forall cur, cur <> "" -> solid cur ->
       JS.trimEnd (cur +:+ JS.collapseWhiteSpace false s)
       = JS.join " " (words_from cur s).
Proof.
  induction s as [|c s [IHrun IHword]]; split.
  - reflexivity.
  - intros cur Hne Hcur. simpl. rewrite append_empty_r.
    destruct cur; [congruence|]. simpl JS.isEmpty. cbn [JS.join].
    now apply trimEnd_solid.
  - simpl. destruct (JS.isWhiteSpace c) eqn:Hc; [exact IHrun|].
    change (String c (JS.collapseWhiteSpace false s))
      with (String c "" +:+ JS.collapseWhiteSpace false s).
    apply IHword; [discriminate|]. intros x [<-|[]]. exact Hc.
  - intros cur Hne Hcur. simpl. destruct (JS.isWhiteSpace c) eqn:Hc.
    + replace (JS.isEmpty cur) with false by (destruct cur; [congruence | reflexivity]).
      rewrite trimEnd_append.
      change (JS.trimEnd (String " " (JS.collapseWhiteSpace true s)))
        with (if JS.isEmpty (JS.trimEnd (JS.collapseWhiteSpace true s))
              then "" else String " " (JS.trimEnd (JS.collapseWhiteSpace true s))).
      rewrite IHrun.
      destruct (words_from "" s) as [|w rest] eqn:Hw.
      * cbn [JS.join JS.isEmpty]. now apply trimEnd_solid.
      * rewrite (join_head_nonempty " " w rest (words_from_head _ _ _ _ Hw)).
        reflexivity.
    + rewrite <- (IHword (cur +:+ String c "")).
      * now rewrite append_assoc.
      * now destruct cur.
      * now apply solid_snoc.
Qed.

Lemma trim_collapse_words (s : string) :
  JS.trim (JS.collapseWhiteSpace false s) = JS.join " " (wordsOf s).
Proof.
  unfold JS.trim, wordsOf. rewrite trimStart_collapse. apply collapse_words.
Qed.

Lemma in_trimStart (c : ascii) (s : string) :
  In c (list_ascii_of_string (JS.trimStart s)) -> In c (list_ascii_of_string s).
Proof.
  induction s as [|d s IH]; simpl; [tauto|].
  destruct (JS.isWhiteSpace d); simpl; tauto.
Qed.

Lemma in_trimEnd (c : ascii) (s : string) :
  In c (list_ascii_of_string (JS.trimEnd s)) -> In c (list_ascii_of_string s).
Proof.
  induction s as [|d s IH]; simpl; [tauto|].
  destruct (JS.isWhiteSpace d && JS.isEmpty (JS.trimEnd s)); simpl; tauto.
Qed.

Lemma in_collapse (c : ascii) (inRun : bool) (s : string) :
  In c (list_ascii_of_string (JS.collapseWhiteSpace inRun s)) ->
  c = " "%char \/ (In c (list_ascii_of_string s) /\ JS.isWhiteSpace c = false).
Proof.
  revert inRun. induction s as [|d s IH]; intros inRun; simpl; [tauto|].
  destruct (JS.isWhiteSpace d) eqn:Hd.
  - destruct inRun; simpl.
    + intros H. destruct (IH _ H) as [->|[? ?]]; tauto.
    + intros [<-|H]; [tauto|]. destruct (IH _ H) as [->|[? ?]]; tauto.
  - simpl. intros [<-|H]; [tauto|]. destruct (IH _ H) as [->|[? ?]]; tauto.
Qed.

Lemma in_keepChars (keep : ascii -> bool) (c : ascii) (s : string) :
  In c (list_ascii_of_string (keepChars keep s)) ->
  keep c = true /\ In c (list_ascii_of_string s).
Proof.
  induction s as [|d s IH]; simpl; [tauto|].
  destruct (keep d) eqn:Hd; simpl.
  - intros [<-|H]; [tauto|]. destruct (IH H); tauto.
  - intros H. destruct (IH H); tauto.
Qed.

Lemma trimStart_trimEnd (s : string) :
  JS.trimStart (JS.trimEnd (JS.trimStart s)) = JS.trimEnd (JS.trimStart s).
Proof.
  induction s as [|c s IH]; [reflexivity|].
  cbn [JS.trimStart]. destruct (JS.isWhiteSpace c) eqn:Hc; [exact IH|].
  cbn [JS.trimEnd]. rewrite Hc. cbn [andb JS.trimStart]. now rewrite Hc.
Qed.

Lemma trimEnd_idempotent (s : string) : JS.trimEnd (JS.trimEnd s) = JS.trimEnd s.
Proof.
  induction s as [|c s IH]; [reflexivity|]. cbn [JS.trimEnd].
  destruct (JS.isWhiteSpace c && JS.isEmpty (JS.trimEnd s)) eqn:Hc;
    [reflexivity|].
  cbn [JS.trimEnd]. now rewrite IH, Hc.
Qed.

Lemma trim_idempotent (s : string) : JS.trim (JS.trim s) = JS.trim s.
Proof.
  unfold JS.trim. now rewrite trimStart_trimEnd, trimEnd_idempotent.
Qed.

Lemma includes_cons (d : string) (c : ascii) (s : string) :
  JS.includes d (String c s) = String.prefix d (String c s) || JS.includes d s.
Proof. reflexivity. Qed.

Lemma prefix_space2 (c : ascii) (s : string) :
  String.prefix "  " (String c s)
  = if ascii_dec " " c then String.prefix " " s else false.
Proof. reflexivity. Qed.

Lemma not_space (c : ascii) : JS.isWhiteSpace c = false -> " "%char <> c.
Proof. now intros Hc <-. Qed.

Lemma collapse_run_head (s : string) :
  String.prefix " " (JS.collapseWhiteSpace true s) = false.
Proof.
  induction s as [|c s IH]; [reflexivity|]. simpl JS.collapseWhiteSpace.
  destruct (JS.isWhiteSpace c) eqn:Hc; [exact IH|].
  cbn [String.prefix]. now destruct (ascii_dec " " c) as [E%not_space|].
Qed.

Lemma collapse_no_double_space (inRun : bool) (s : string) :
  JS.includes "  " (JS.collapseWhiteSpace inRun s) = false.
Proof.
  revert inRun. induction s as [|c s IH]; intros inRun; [reflexivity|].
  simpl JS.collapseWhiteSpace. destruct (JS.isWhiteSpace c) eqn:Hc.
  - destruct inRun; [apply IH|].
    rewrite includes_cons, prefix_space2, IH, collapse_run_head.
    now destruct (ascii_dec " " " ").
  - rewrite includes_cons, prefix_space2, IH.
    now destruct (ascii_dec " " c) as [E%not_space|].
Qed.

Lemma includes_trimStart (d s : string) :
  JS.includes d s = false -> JS.includes d (JS.trimStart s) = false.
Proof.
  induction s as [|c s IH]; [trivial|]. intros H. cbn [JS.trimStart].
  destruct (JS.isWhiteSpace c); [|exact H].
  rewrite includes_cons in H. apply orb_false_elim in H as [_ H]. now apply IH.
Qed.

Lemma prefix_trimEnd (d s : string) :
  String.prefix d (JS.trimEnd s) = true -> String.prefix d s = true.
Proof.
  revert d. induction s as [|c s IH]; intros d; [trivial|].
  cbn [JS.trimEnd].
  destruct (JS.isWhiteSpace c && JS.isEmpty (JS.trimEnd s)).
  - destruct d; [reflexivity | discriminate].
  - destruct d as [|e d]; [reflexivity|]. cbn [String.prefix].
    destruct (ascii_dec e c); [apply IH | trivial].
Qed.

Lemma includes_trimEnd (d s : string) :
  JS.includes d s = false -> JS.includes d (JS.trimEnd s) = false.
Proof.
  induction s as [|c s IH]; [trivial|]. intros H.
  rewrite includes_cons in H. apply orb_false_elim in H as [Hp H].
  cbn [JS.trimEnd].
  destruct (JS.isWhiteSpace c && JS.isEmpty (JS.trimEnd s)) eqn:Hc.
  - destruct d; [discriminate Hp | reflexivity].
  - rewrite includes_cons, (IH H), orb_false_r.
    destruct (String.prefix d (String c (JS.trimEnd s))) eqn:Hq; [|reflexivity].
    rewrite <- Hp. symmetry. apply prefix_trimEnd. cbn [JS.trimEnd].
    now rewrite Hc.
Qed.

(** C9.  The sanitization of a title or performer keeps the code units
    that are alphanumeric, white space, hyphen, underscore or period and
    drops the others, turns each run of white space into one space and
    trims: the result is the words of the kept text with one space between
    them; it holds nothing but alphanumerics, single spaces, hyphens,
    underscores and periods and is trimmed.  ["DJ X & Y"] gives ["DJ X Y"]
    and ["Intro/Outro (Live)!"] gives ["IntroOutro Live"]. *)
Theorem sanitize_spec :
  sanitize "DJ X & Y" = "DJ X Y"
  /\ sanitize "Intro/Outro (Live)!" = "IntroOutro Live"
  /\ forall s : string,
       sanitize s = JS.join " " (wordsOf (keepChars isFileNameChar s))
       /\ (forall c, In c (list_ascii_of_string (sanitize s)) ->
                     isAlnum c = true \/ In c [" "; "-"; "_"; "."]%char)
       /\ JS.includes "  " (sanitize s) = false
       /\ JS.trim (sanitize s) = sanitize s.
Proof.
  split; [reflexivity|]. split; [reflexivity|]. intros s.
  unfold sanitize. rewrite removeClass_keepChars. repeat split.
  - apply trim_collapse_words.
  - intros c Hc. unfold JS.trim in Hc.
    apply in_trimEnd, in_trimStart, in_collapse in Hc.
    destruct Hc as [->|[Hc Hws]]; [right; now left|].
    apply in_keepChars in Hc as [Hkeep _].
    unfold isFileNameChar in Hkeep. rewrite Hws, orb_false_r in Hkeep.
    apply orb_true_iff in Hkeep as [Hal|Hp]; [now left|]. right.
    cbn [existsb] in Hp. rewrite orb_false_r in Hp.
    repeat (apply orb_true_iff in Hp as [Hp|Hp]);
      apply Ascii.eqb_eq in Hp as ->; simpl; tauto.
  - apply includes_trimEnd, includes_trimStart, collapse_no_double_space.
  - apply trim_idempotent.
Qed.

End Sanitize.

(** * The monad *)

Section MonadFacts.

Lemma logged_nil (w : World) : logged w [] = w.
Proof. destruct w. unfold logged. simpl. now rewrite app_nil_r. Qed.

Lemma logged_logged (w : World) (a b : list Event) :
  logged (logged w a) b = logged w (a ++ b).
Proof. unfold logged. simpl. now rewrite app_assoc. Qed.

Lemma emit_logged (e : Event) (w : World) :
  emit e w = (Returned tt, logged w [e]).
Proof. reflexivity. Qed.

Lemma console_logged (level : Level) (args : list ConsoleArg) (w : World) :
  console level args w = (Returned tt, logged w [Console level args]).
Proof. reflexivity. Qed.

End MonadFacts.

(** * The entry points *)

Section EntryPoints.

Context `{Env}.

Lemma missing_beyond (argv : list string) (k n : nat) :
  argv !! k = None -> (k <= n)%nat -> missing (argv !! n) = true.
Proof.
  intros Hk Hn. apply lookup_ge_None in Hk.
  now rewrite (proj2 (lookup_ge_None argv n)) by lia.
Qed.

(** C8.  When a required positional argument is absent from [process.argv]
    (the arguments start at index 2), each of the three entry points
    prints its usage message on the error stream and exits with status 1;
    nothing else happens: no file-system call, no process, no file
    changed. *)
Theorem missing_argument_exits (argv : list string) (k : nat) (w : World) :
  argv !! k = None ->
  ((2 <= k <= 5)%nat ->
   Tracklist2cue.program argv w
   = (Exited 1, logged w [Console Err [Text Tracklist2cue.usage]]))
  /\ ((2 <= k <= 5)%nat ->
      Tracklist2mp3.program argv w
      = (Exited 1, logged w [Console Err [Text Tracklist2mp3.usage]]))
  /\ ((2 <= k <= 3)%nat ->
      Cue2mp3.program argv w
      = (Exited 1, logged w [Console Err [Text Cue2mp3.usage]])).
Proof.
  intros Hk. repeat split; intros Hrange.
  - unfold Tracklist2cue.program, Tracklist2cue.main, tryCatch.
    rewrite (missing_beyond argv k 5 Hk) by lia.
    now rewrite !orb_true_r.
  - unfold Tracklist2mp3.program, Tracklist2mp3.main, tryCatch.
    rewrite (missing_beyond argv k 5 Hk) by lia.
    now rewrite !orb_true_r.
  - unfold Cue2mp3.program, Cue2mp3.main.
    rewrite (missing_beyond argv k 3 Hk) by lia.
    now rewrite !orb_true_r.
Qed.

End EntryPoints.

Lemma missing_argument_exits_witness :
  (Tracklist2cue.program ["node"; "tracklist2cue"; "mix.txt"; "mix.mp3"] emptyWorld
   = (Exited 1, logged emptyWorld [Console Err [Text Tracklist2cue.usage]]))
  /\ (@Tracklist2mp3.program (sampleEnv noParser noBinary)
        ["node"; "tracklist2mp3"; "mix.txt"; "mix.mp3"] emptyWorld
      = (Exited 1, logged emptyWorld [Console Err [Text Tracklist2mp3.usage]]))
  /\ (@Cue2mp3.program (sampleEnv noParser noBinary)
        ["node"; "cue2mp3"; "mix.cue"] emptyWorld
      = (Exited 1, logged emptyWorld [Console Err [Text Cue2mp3.usage]])).
Proof.
  split; [|split].
  - apply (@missing_argument_exits (sampleEnv noParser noBinary)
             ["node"; "tracklist2cue"; "mix.txt"; "mix.mp3"] 4%nat emptyWorld);
      [reflexivity | lia].
  - apply (@missing_argument_exits (sampleEnv noParser noBinary)
             ["node"; "tracklist2mp3"; "mix.txt"; "mix.mp3"] 4%nat emptyWorld);
      [reflexivity | lia].
  - apply (@missing_argument_exits (sampleEnv noParser noBinary)
             ["node"; "cue2mp3"; "mix.cue"] 3%nat emptyWorld);
      [reflexivity | lia].
Defined.

(** * The tracklist to CUE conversion *)

Section Conversion.

Context `{Env}.

Lemma absent_lookup (w : World) (path : string) :
  isPresent w path = false ->
  files w !! path = None /\ bool_decide (path ∈ dirs w) = false.
Proof.
  unfold isPresent. intros [Hf Hd]%orb_false_elim. split; [|exact Hd].
  apply bool_decide_eq_false in Hf. now apply eq_None_not_Some.
Qed.

Lemma convertTracklistToCue_missing_input
    (inputFilePath outputFilePath albumTitle audioFilename : string)
    (w : World) :
  isPresent w inputFilePath = false ->
  convertTracklistToCue inputFilePath outputFilePath albumTitle audioFilename w
  = (Returned tt, logged w (unreadableTracklist inputFilePath)).
Proof.
  intros [Hf Hd]%absent_lookup.
  unfold convertTracklistToCue, tryCatch, bind, readFile, bind, emit.
  cbn [files dirs events]. rewrite Hf, Hd. unfold throw, console, emit, logged.
  cbn [files dirs events]. now rewrite <- app_assoc.
Qed.

(** C7, as the code has it.  When the tracklist file does not exist,
    [convertTracklistToCue] catches the error of the failed read (a system
    error that carries the path) and prints it on the error stream; no file
    is written; the call returns normally, nothing reaches the caller, and
    the combined entry point goes on to parse the CUE path. *)
Theorem convertTracklistToCue_missing_input_caught
    (tracklistFile audioFile albumTitle outputFolder outputCueFile : string)
    (w : World) :
  isPresent w tracklistFile = false ->
  JS.isEmpty tracklistFile = false ->
  JS.isEmpty audioFile = false ->
  JS.isEmpty albumTitle = false ->
  JS.isEmpty outputFolder = false ->
  let w' := logged w (unreadableTracklist tracklistFile) in
  convertTracklistToCue tracklistFile outputCueFile albumTitle audioFile w
  = (Returned tt, w')
  /\ files w' = files w
  /\ Tracklist2mp3.main
       ["node"; "tracklist2mp3"; tracklistFile; audioFile; albumTitle;
        outputFolder] w
     = parseAndSplit
         (path_join outputFolder
            (default "" (head (JS.split "." tracklistFile)) +:+ ".cue"))
         outputFolder w'.
Proof.
  intros Habsent Ht Ha Hal Ho w'. split; [|split].
  - now apply convertTracklistToCue_missing_input.
  - reflexivity.
  - unfold Tracklist2mp3.main.
    cbn [lookup list_lookup missing argString default].
    rewrite Ht, Ha, Hal, Ho. cbn [orb]. unfold bind.
    now rewrite convertTracklistToCue_missing_input.
Qed.

End Conversion.

Lemma convertTracklistToCue_missing_input_caught_witness :
  let w' := logged emptyWorld (unreadableTracklist "mix.txt") in
  convertTracklistToCue "mix.txt" "out/mix.cue" "Mix" "mix.mp3" emptyWorld
  = (Returned tt, w')
  /\ files w' = files emptyWorld
  /\ @Tracklist2mp3.main (sampleEnv noParser noBinary)
       ["node"; "tracklist2mp3"; "mix.txt"; "mix.mp3"; "Mix"; "out"] emptyWorld
     = @parseAndSplit (sampleEnv noParser noBinary)
         (@path_join (sampleEnv noParser noBinary) "out"
            (default "" (head (JS.split "." "mix.txt")) +:+ ".cue"))
         "out" w'.
Proof.
  apply (@convertTracklistToCue_missing_input_caught
           (sampleEnv noParser noBinary)
           "mix.txt" "mix.mp3" "Mix" "out" "out/mix.cue" emptyWorld);
    reflexivity.
Defined.

(** C7, as the claim words it, fails: with no tracklist file in an empty
    world the call does not end in an error, it returns. *)
Lemma convertTracklistToCue_does_not_throw :
  ~ (forall (inputFilePath outputFilePath albumTitle audioFilename : string)
            (w : World),
        isPresent w inputFilePath = false ->
        exists e w',
          convertTracklistToCue inputFilePath outputFilePath albumTitle
            audioFilename w = (Thrown e, w')
          /\ files w' = files w).
Proof.
  intros Hclaim.
  destruct (Hclaim "mix.txt" "out/mix.cue" "Mix" "mix.mp3" emptyWorld eq_refl)
    as (e & w' & Hrun & _).
  rewrite (@convertTracklistToCue_missing_input "mix.txt" "out/mix.cue" "Mix"
             "mix.mp3" emptyWorld eq_refl) in Hrun.
  discriminate Hrun.
Qed.

(** * The CUE parsing adapter *)

Section CueAdapter.

Context `{Env}.

Lemma mapM_convertTrack (rawTracks : list RawTrack) (w : World) :
  mapM convertTrack rawTracks w
  = (Returned (map trackOf rawTracks), logged w (indexWarnings rawTracks)).
Proof.
  revert w. induction rawTracks as [|track rest IH]; intros w.
  - cbn. now rewrite logged_nil.
  - cbn [mapM map indexWarnings omap list_omap]. unfold bind at 1.
    unfold convertTrack, trackOf.
    destruct (findIndex01 (raw_indexes track)) as [index01|].
    + unfold ret at 1. unfold bind at 1. rewrite IH. reflexivity.
    + unfold bind at 1. rewrite console_logged. unfold ret at 1.
      unfold bind at 1. rewrite IH, logged_logged. reflexivity.
Qed.

Lemma omap_id_map {A B} (f : A -> option B) (l : list A) :
  omap id (map f l) = omap f l.
Proof.
  induction l as [|x l IH]; [reflexivity|]. cbn. rewrite IH.
  now destruct (f x).
Qed.

Lemma present_file (w : World) (path content : string) :
  files w !! path = Some content -> isPresent w path = true.
Proof.
  intros Hf. unfold isPresent. rewrite Hf.
  now rewrite bool_decide_eq_true_2 by eauto.
Qed.

Lemma existsSync_logged (path : string) (w : World) :
  existsSync path w = (Returned (isPresent w path), logged w [ExistsSync path]).
Proof. reflexivity. Qed.

Lemma cueParse_logged (path content : string) (w : World) :
  files w !! path = Some content ->
  cueParse path w
  = (match cueParser_parse path content with
     | ParseThrows message => Thrown (JsError message)
     | ParseReturns sheet => Returned sheet
     end, logged w [CueParse path]).
Proof.
  intros Hf. unfold cueParse, bind. rewrite emit_logged, Hf.
  now destruct (cueParser_parse path content).
Qed.

(** The result is a function of the first FILE entry alone. *)
Lemma parseCueFile_first_file
    (cueFilePath content : string) (sheet : CueSheet)
    (entry : CueFileEntry) (others : list CueFileEntry) (w : World) :
  files w !! cueFilePath = Some content ->
  cueParser_parse cueFilePath content = ParseReturns (Some sheet) ->
  sheet_files sheet = Some (entry :: others) ->
  parseCueFile cueFilePath w
  = match file_tracks entry with
    | Some (track :: rest) =>
        (Returned (parsedCue sheet entry (track :: rest)),
         logged w ([ExistsSync cueFilePath; CueParse cueFilePath]
                   ++ indexWarnings (track :: rest)))
    | _ =>
        (Thrown (JsError ("No tracks found for audio file '" +:+ file_name entry
                          +:+ "' in CUE sheet: " +:+ cueFilePath)),
         logged w [ExistsSync cueFilePath; CueParse cueFilePath])
    end.
Proof.
  intros Hf Hparse Hfiles. unfold parseCueFile.
  unfold bind at 1. rewrite existsSync_logged, (present_file _ _ _ Hf).
  cbn [negb]. unfold bind at 1. unfold tryCatch.
  rewrite (cueParse_logged _ content) by exact Hf.
  rewrite Hparse, logged_logged. cbn [mbind option_bind]. rewrite Hfiles.
  destruct (file_tracks entry) as [[|track rest]|]; try reflexivity.
  unfold bind at 1. rewrite mapM_convertTrack, logged_logged, omap_id_map.
  reflexivity.
Qed.

(** Whatever [parseCueFile] returns was made this way. *)
Lemma parseCueFile_returned
    (cueFilePath : string) (w w' : World) (parsed : ParsedCueFile) :
  parseCueFile cueFilePath w = (Returned parsed, w') ->
  exists content sheet entry others track rest,
    files w !! cueFilePath = Some content
    /\ cueParser_parse cueFilePath content = ParseReturns (Some sheet)
    /\ sheet_files sheet = Some (entry :: others)
    /\ file_tracks entry = Some (track :: rest)
    /\ parsed = parsedCue sheet entry (track :: rest).
Proof.
  destruct (files w !! cueFilePath) as [content|] eqn:Hf.
  - destruct (cueParser_parse cueFilePath content) as [message|[sheet|]]
      eqn:Hparse.
    1, 3: unfold parseCueFile; unfold bind at 1;
      rewrite existsSync_logged, (present_file _ _ _ Hf); cbn [negb];
      unfold bind at 1; unfold tryCatch;
      rewrite (cueParse_logged _ content), Hparse by exact Hf;
      discriminate.
    destruct (sheet_files sheet) as [[|entry others]|] eqn:Hfiles.
    1, 3: unfold parseCueFile; unfold bind at 1;
      rewrite existsSync_logged, (present_file _ _ _ Hf); cbn [negb];
      unfold bind at 1; unfold tryCatch;
      rewrite (cueParse_logged _ content), Hparse by exact Hf;
      cbn [mbind option_bind]; rewrite Hfiles; discriminate.
    rewrite (parseCueFile_first_file _ _ _ _ _ _ Hf Hparse Hfiles).
    destruct (file_tracks entry) as [[|track rest]|] eqn:Htracks;
      try discriminate.
    intros [= <- _]. now exists content, sheet, entry, others, track, rest.
  - unfold parseCueFile. unfold bind at 1. rewrite existsSync_logged.
    destruct (isPresent w cueFilePath); cbn [negb]; [|discriminate].
    unfold bind at 1. unfold tryCatch, cueParse. unfold bind at 1.
    rewrite emit_logged. cbn [logged files]. rewrite Hf. discriminate.
Qed.

End CueAdapter.

(** * The order of the tracks *)

Section TrackOrder.

Lemma compareTracks_le (a b : CueTrack) :
  Qle_bool (compareTracks a b) 0 = true <-> byStartTime a b.
Proof.
  rewrite Qle_bool_iff. unfold compareTracks, byStartTime. split; intros; lra.
Qed.

Lemma compareTracks_gt (a b : CueTrack) :
  Qle_bool (compareTracks a b) 0 = false -> byStartTime b a.
Proof.
  intros Hc. unfold byStartTime.
  destruct (Qlt_le_dec (startTimeSeconds a) (startTimeSeconds b)) as [Hlt|Hle];
    [|exact Hle].
  assert (Qle_bool (compareTracks a b) 0 = true) as Ht; [|congruence].
  apply compareTracks_le. unfold byStartTime. lra.
Qed.

Lemma insertTrack_perm (x : CueTrack) (l : list CueTrack) :
  Permutation (insertTrack x l) (x :: l).
Proof.
  induction l as [|y l IH]; simpl; [reflexivity|].
  destruct (Qle_bool (compareTracks x y) 0); [reflexivity|].
  rewrite IH. apply perm_swap.
Qed.

Lemma sortTracks_perm (l : list CueTrack) : Permutation (sortTracks l) l.
Proof.
  induction l as [|x l IH]; simpl; [reflexivity|].
  now rewrite insertTrack_perm, IH.
Qed.

Lemma insertTrack_hdrel (x y : CueTrack) (l : list CueTrack) :
  byStartTime y x -> HdRel byStartTime y l ->
  HdRel byStartTime y (insertTrack x l).
Proof.
  intros Hyx Hl. destruct l as [|z l]; simpl; [now constructor|].
  destruct (Qle_bool (compareTracks x z) 0); constructor;
    [exact Hyx | now inversion Hl].
Qed.

Lemma insertTrack_sorted (x : CueTrack) (l : list CueTrack) :
  Sorted byStartTime l -> Sorted byStartTime (insertTrack x l).
Proof.
  induction 1 as [|y l Hl IH Hy]; simpl; [repeat constructor|].
  destruct (Qle_bool (compareTracks x y) 0) eqn:Hc.
  - constructor; [now constructor|]. constructor. now apply compareTracks_le.
  - constructor; [exact IH|].
    apply insertTrack_hdrel; [now apply compareTracks_gt | exact Hy].
Qed.

Lemma sortTracks_sorted (l : list CueTrack) : Sorted byStartTime (sortTracks l).
Proof.
  induction l as [|x l IH]; simpl; [constructor|]. now apply insertTrack_sorted.
Qed.


End TrackOrder.

(** * What the adapter returns *)

Section CueAdapterSpec.

Context `{Env}.

(** C5.  Whenever [parseCueFile] accepts a CUE input, the tracks it
    returns are in ascending order of [startTimeSeconds], whatever the
    order of the tracks in the sheet. *)
Theorem parseCueFile_sorted
    (cueFilePath : string) (w w' : World) (parsed : ParsedCueFile) :
  parseCueFile cueFilePath w = (Returned parsed, w') ->
  Sorted byStartTime (tracks parsed).
Proof.
  intros (content & sheet & entry & others & track & rest
          & _ & _ & _ & _ & ->)%parseCueFile_returned.
  apply sortTracks_sorted.
Qed.

Lemma in_omap_trackOf (rawTracks : list RawTrack) (t : CueTrack) :
  In t (omap trackOf rawTracks)
  <-> exists raw, In raw rawTracks /\ trackOf raw = Some t.
Proof.
  rewrite <- list_elem_of_In, list_elem_of_omap.
  split; intros (raw & Hraw & Ht); exists raw;
    (split; [now apply list_elem_of_In | exact Ht]).
Qed.

(** C10.  With several FILE entries in the sheet, the audio file name and
    the tracks come from the first entry alone: the result is a function
    of that entry (an error when it has no track), every returned track is
    the conversion of one of its tracks, and the later entries leave no
    trace, not even a warning. *)
Theorem parseCueFile_first_file_only
    (cueFilePath content : string) (sheet : CueSheet)
    (entry : CueFileEntry) (others : list CueFileEntry) (w : World) :
  files w !! cueFilePath = Some content ->
  cueParser_parse cueFilePath content = ParseReturns (Some sheet) ->
  sheet_files sheet = Some (entry :: others) ->
  parseCueFile cueFilePath w
  = match file_tracks entry with
    | Some (track :: rest) =>
        (Returned (parsedCue sheet entry (track :: rest)),
         logged w ([ExistsSync cueFilePath; CueParse cueFilePath]
                   ++ indexWarnings (track :: rest)))
    | _ =>
        (Thrown (JsError ("No tracks found for audio file '" +:+ file_name entry
                          +:+ "' in CUE sheet: " +:+ cueFilePath)),
         logged w [ExistsSync cueFilePath; CueParse cueFilePath])
    end
  /\ forall rawTracks,
       audioFileName (parsedCue sheet entry rawTracks) = file_name entry
       /\ forall t, In t (tracks (parsedCue sheet entry rawTracks))
                    <-> exists raw, In raw rawTracks /\ trackOf raw = Some t.
Proof.
  intros Hf Hparse Hfiles. split.
  - now apply parseCueFile_first_file with (content := content) (others := others).
  - intros rawTracks. split; [reflexivity|]. intros t. cbn [tracks parsedCue].
    rewrite <- in_omap_trackOf. split; apply Permutation_in.
    + apply sortTracks_perm.
    + symmetry. apply sortTracks_perm.
Qed.

End CueAdapterSpec.

Lemma parseCueFile_sorted_witness :
  Sorted byStartTime
    (tracks (parsedCue sampleSheet sampleFirstFile
               (default [] (file_tracks sampleFirstFile)))).
Proof.
  apply (@parseCueFile_sorted (sampleEnv sampleParser noBinary)
           "mix.cue" sampleCueWorld
           (logged sampleCueWorld
              ([ExistsSync "mix.cue"; CueParse "mix.cue"]
               ++ indexWarnings (default [] (file_tracks sampleFirstFile))))).
  vm_compute. reflexivity.
Defined.

Lemma parseCueFile_first_file_only_witness :
  @parseCueFile (sampleEnv sampleParser noBinary) "mix.cue" sampleCueWorld
  = (Returned (parsedCue sampleSheet sampleFirstFile
                 (default [] (file_tracks sampleFirstFile))),
     logged sampleCueWorld
       ([ExistsSync "mix.cue"; CueParse "mix.cue"]
        ++ indexWarnings (default [] (file_tracks sampleFirstFile))))
  /\ forall rawTracks,
       audioFileName (parsedCue sampleSheet sampleFirstFile rawTracks)
       = "side-a.mp3"
       /\ forall t, In t (tracks (parsedCue sampleSheet sampleFirstFile rawTracks))
                    <-> exists raw, In raw rawTracks /\ trackOf raw = Some t.
Proof.
  apply (@parseCueFile_first_file_only (sampleEnv sampleParser noBinary)
           "mix.cue" "(a sheet with two FILE entries)" sampleSheet
           sampleFirstFile [sampleSecondFile] sampleCueWorld);
    reflexivity.
Defined.

Example parseCueFile_sample_order :
  map trackNumber
    (tracks (parsedCue sampleSheet sampleFirstFile
               (default [] (file_tracks sampleFirstFile))))
  = [2; 1].
Proof. reflexivity. Qed.

(** * Writing a sheet and reading it back *)

Section RoundTrip.

Context `{Env}.










End RoundTrip.



(** * The segment planner and the extraction driver *)

Section Splitting.

Context `{Env}.

Lemma ffmpegRequests_app (a b : list Event) :
  ffmpegRequests (a ++ b) = ffmpegRequests a ++ ffmpegRequests b.
Proof. apply omap_app. Qed.

Lemma warningsOf_app (a b : list Event) :
  warningsOf (a ++ b) = warningsOf a ++ warningsOf b.
Proof. apply List.filter_app. Qed.

Lemma mapM_log (prefix : string) (chunks : list string) (w : World) :
  mapM (fun data => console Log [Text (prefix +:+ data)]) chunks w
  = (Returned (map (fun _ => tt) chunks),
     logged w (map (fun data => Console Log [Text (prefix +:+ data)]) chunks)).
Proof.
  revert w. induction chunks as [|data chunks IH]; intros w.
  - cbn. now rewrite logged_nil.
  - cbn [mapM map]. unfold bind at 1. rewrite console_logged.
    unfold bind at 1. rewrite IH, logged_logged. reflexivity.
Qed.

Lemma logs_silent (prefix : string) (chunks : list string) :
  ffmpegRequests (map (fun data => Console Log [Text (prefix +:+ data)]) chunks) = []
  /\ warningsOf (map (fun data => Console Log [Text (prefix +:+ data)]) chunks) = [].
Proof. induction chunks as [|data chunks [IH1 IH2]]; split; trivial. Qed.

(** A successful run of [ffmpeg]: one request, no warning. *)
Lemma runFfmpeg_ok
    (args : list string) (outputFileName : string) (w : World)
    (stdout stderr : list string) :
  spawn_run "ffmpeg" args (files w) = SpawnClose (Some 0) stdout stderr ->
  exists evs,
    runFfmpeg args outputFileName w = (Returned tt, logged w evs)
    /\ ffmpegRequests evs = [args] /\ warningsOf evs = [].
Proof.
  intros Hrun. unfold runFfmpeg. unfold bind at 1. unfold spawn.
  unfold bind at 1. rewrite emit_logged. unfold ret at 1. rewrite Hrun.
  unfold bind at 1. rewrite mapM_log, logged_logged.
  cbn [bool_decide decide_rel]. rewrite bool_decide_eq_true_2 by reflexivity.
  rewrite console_logged, logged_logged.
  eexists. split; [reflexivity|].
  destruct (logs_silent "ffmpeg stdout: " stdout) as [Hr Hw].
  rewrite !ffmpegRequests_app, !warningsOf_app, Hr, Hw. split; reflexivity.
Qed.

(** The loop over the tracks from index [length done] on, when every
    extraction succeeds. *)
Lemma forLoop_splitTrack
    (inputFilePath : string) (cueMetadata : ParsedCueFile)
    (outputDirectory : string) (totalDuration : Q)
    (done rest : list CueTrack) (outputFilePaths : list string) (w : World) :
  tracks cueMetadata = done ++ rest ->
  (forall win, In win (List.filter proper (windows rest totalDuration)) ->
     exists stdout stderr,
       spawn_run "ffmpeg"
         (extractionRequest inputFilePath cueMetadata outputDirectory win)
         (files w)
       = SpawnClose (Some 0) stdout stderr) ->
  exists evs,
    forLoop (length rest) (length done)
      (splitTrack inputFilePath cueMetadata outputDirectory totalDuration
         (path_extname inputFilePath))
      outputFilePaths w
    = (Returned
         (outputFilePaths
          ++ map (windowPath inputFilePath outputDirectory)
               (List.filter proper (windows rest totalDuration))),
       logged w evs)
    /\ ffmpegRequests evs
       = map (extractionRequest inputFilePath cueMetadata outputDirectory)
           (List.filter proper (windows rest totalDuration))
    /\ warningsOf evs
       = map skipWarning (List.filter degenerate (windows rest totalDuration)).
Proof.
  intros Htracks Hffmpeg.
  revert done outputFilePaths w Htracks Hffmpeg.
  induction rest as [|track rest IH]; intros done outputFilePaths w Htracks Hffmpeg.
  - exists []. cbn. now rewrite logged_nil, app_nil_r.
  - cbn [length forLoop windows List.filter]. unfold bind at 1.
    unfold splitTrack at 1.
    assert (tracks cueMetadata !! length done = Some track) as ->.
    { rewrite Htracks. apply list_lookup_middle. reflexivity. }
    assert (tracks cueMetadata !! (length done + 1)%nat = rest !! 0%nat) as ->.
    { rewrite Htracks, lookup_app_r by lia.
      now replace (length done + 1 - length done)%nat with 1%nat by lia. }
    assert (Hnext : tracks cueMetadata = (done ++ [track]) ++ rest)
      by now rewrite <- app_assoc.
    assert (Hlen : S (length done) = length (done ++ [track]))
      by (rewrite length_app; cbn; lia).
    set (win := {| window_track := track;
                   startSeconds := startTimeSeconds track;
                   endSeconds := match rest with
                                 | next :: _ => startTimeSeconds next
                                 | [] => totalDuration
                                 end |}).
    assert (match rest !! 0%nat with
            | Some next => startTimeSeconds next
            | None => totalDuration
            end = endSeconds win) as -> by now destruct rest.
    change (Qle_bool (endSeconds win) (startTimeSeconds track))
      with (degenerate win).
    cbn [windows List.filter] in Hffmpeg. fold win in Hffmpeg.
    replace (proper win) with (negb (degenerate win)) in * by reflexivity.
    destruct (degenerate win) eqn:Hdeg; cbn [negb] in *.
    + unfold bind at 1. rewrite console_logged. unfold ret at 1.
      destruct (IH (done ++ [track]) outputFilePaths
                  (logged w [skipWarning win]) Hnext Hffmpeg)
        as (evs & Hloop & Hreq & Hwarn).
      exists (skipWarning win :: evs). rewrite Hlen.
      unfold skipWarning at 1 in Hloop. cbn [window_track win] in Hloop.
      split; [|split].
      * rewrite logged_logged in Hloop. exact Hloop.
      * exact Hreq.
      * cbn [map]. change (warningsOf (skipWarning win :: evs))
          with (skipWarning win :: warningsOf evs). now rewrite Hwarn.
    + cbn [map].
      set (path := path_join outputDirectory _).
      destruct (Hffmpeg win (or_introl eq_refl)) as (stdout & stderr & Hrun).
      assert (Hrest : forall win',
                 In win' (List.filter proper (windows rest totalDuration)) ->
                 exists stdout stderr,
                   spawn_run "ffmpeg"
                     (extractionRequest inputFilePath cueMetadata
                        outputDirectory win') (files w)
                   = SpawnClose (Some 0) stdout stderr)
        by (intros win' Hin; apply Hffmpeg; now right).
      destruct (runFfmpeg_ok _ (windowFileName (path_extname inputFilePath) win)
                  w stdout stderr Hrun) as (evs1 & Hrun1 & Hreq1 & Hwarn1).
      unfold bind at 1.
      change (runFfmpeg _ _ w)
        with (runFfmpeg
                (extractionRequest inputFilePath cueMetadata outputDirectory win)
                (windowFileName (path_extname inputFilePath) win) w).
      rewrite Hrun1. unfold ret at 1.
      destruct (IH (done ++ [track]) (outputFilePaths ++ [path])
                  (logged w evs1) Hnext Hrest)
        as (evs & Hloop & Hreq & Hwarn).
      exists (evs1 ++ evs). rewrite Hlen. split; [|split].
      * rewrite logged_logged, <- app_assoc in Hloop. exact Hloop.
      * now rewrite ffmpegRequests_app, Hreq1, Hreq.
      * now rewrite warningsOf_app, Hwarn1, Hwarn.
Qed.

Lemma getMp3Duration_ok
    (filePath : string) (w : World) (stdout stderr : list string)
    (totalDuration : Q) :
  spawn_run "ffprobe" (ffprobeArgs filePath) (files w)
  = SpawnClose (Some 0) stdout stderr ->
  parseFloat (JS.trim (String.concat "" stdout)) = Some totalDuration ->
  getMp3Duration filePath w
  = (Returned totalDuration, logged w [Spawn "ffprobe" (ffprobeArgs filePath)]).
Proof.
  intros Hrun Hparse. unfold getMp3Duration. unfold bind at 1. unfold spawn.
  unfold bind at 1. rewrite emit_logged. unfold ret at 1.
  fold (ffprobeArgs filePath). rewrite Hrun.
  rewrite bool_decide_eq_true_2 by reflexivity. now rewrite Hparse.
Qed.

Lemma windows_shape (trackList : list CueTrack) (totalDuration : Q) :
  length (windows trackList totalDuration) = length trackList
  /\ forall i win,
       windows trackList totalDuration !! i = Some win ->
       exists track,
         trackList !! i = Some track
         /\ window_track win = track
         /\ startSeconds win = startTimeSeconds track
         /\ endSeconds win
            = match trackList !! S i with
              | Some next => startTimeSeconds next
              | None => totalDuration
              end.
Proof.
  induction trackList as [|track rest [IHlen IH]]; split.
  - reflexivity.
  - intros i win Hwin. now destruct i.
  - cbn [windows length]. now rewrite IHlen.
  - intros [|i] win Hwin.
    + injection Hwin as <-. exists track. repeat split. now destruct rest.
    + apply IH in Hwin as (t & Ht & Hrest). now exists t.
Qed.

(** C1.  The plan has one window per track, from the start time of the
    track to the start time of the next one, the last one to the probed
    total duration.  When the audio file is there, the probe gives the
    duration and every extraction of the plan succeeds, [splitMp3WithCue]
    sends [ffmpeg] exactly the requests of the windows with
    [startSeconds < endSeconds], in order, and returns their paths; for
    each window with [startSeconds >= endSeconds] it prints the warning
    and goes on.  Tracks that start at 0, 30 and 90 in a recording of 120
    seconds give the windows [0,30), [30,90) and [90,120). *)
Theorem splitMp3WithCue_windows :
  (forall (trackList : list CueTrack) (totalDuration : Q),
      length (windows trackList totalDuration) = length trackList
      /\ forall i win,
           windows trackList totalDuration !! i = Some win ->
           exists track,
             trackList !! i = Some track
             /\ window_track win = track
             /\ startSeconds win = startTimeSeconds track
             /\ endSeconds win
                = match trackList !! S i with
                  | Some next => startTimeSeconds next
                  | None => totalDuration
                  end)
  /\ (forall (inputFilePath : string) (cueMetadata : ParsedCueFile)
             (outputDirectory : string) (totalDuration : Q) (w : World)
             (stdout stderr : list string),
        isPresent w inputFilePath = true ->
        (0 < length (tracks cueMetadata))%nat ->
        spawn_run "ffprobe" (ffprobeArgs inputFilePath) (files w)
        = SpawnClose (Some 0) stdout stderr ->
        parseFloat (JS.trim (String.concat "" stdout)) = Some totalDuration ->
        let plan := windows (tracks cueMetadata) totalDuration in
        (forall win, In win (List.filter proper plan) ->
           exists out err,
             spawn_run "ffmpeg"
               (extractionRequest inputFilePath cueMetadata outputDirectory win)
               (files w)
             = SpawnClose (Some 0) out err) ->
        exists w' evs,
          splitMp3WithCue inputFilePath cueMetadata outputDirectory w
          = (Returned (map (windowPath inputFilePath outputDirectory)
                         (List.filter proper plan)), w')
          /\ files w' = files w
          /\ events w' = events w ++ evs
          /\ ffmpegRequests evs
             = map (extractionRequest inputFilePath cueMetadata outputDirectory)
                 (List.filter proper plan)
          /\ warningsOf evs = map skipWarning (List.filter degenerate plan))
  /\ map (fun win => (startSeconds win, endSeconds win))
       (List.filter proper (windows sampleTracks 120))
     = [(0, 30); (30, 90); (90, 120)]%Q.
Proof.
  split; [exact windows_shape|]. split; [|reflexivity].
  intros inputFilePath cueMetadata outputDirectory totalDuration w
    stdout stderr Hpresent Hpos Hprobe Hparse plan Hffmpeg.
  unfold splitMp3WithCue.
  unfold bind at 1. rewrite console_logged.
  unfold bind at 1. rewrite existsSync_logged, logged_logged.
  change (isPresent (logged w _) inputFilePath) with (isPresent w inputFilePath).
  rewrite Hpresent. cbn [negb].
  destruct (length (tracks cueMetadata)) as [|n] eqn:Hlen; [lia|].
  cbn [Nat.eqb]. rewrite <- Hlen.
  do 3 (unfold bind at 1; rewrite console_logged, logged_logged).
  unfold bind at 1. rewrite existsSync_logged, logged_logged.
  change (isPresent (logged w _) outputDirectory)
    with (isPresent w outputDirectory).
  match goal with
  | |- context [logged w (?evs ++ [ExistsSync outputDirectory])] =>
      remember (evs ++ [ExistsSync outputDirectory]) as pre eqn:Hpre
  end.
  set (made := if negb (isPresent w outputDirectory)
               then [Mkdir outputDirectory] else []).
  set (w1 := {| files := files w;
                dirs := if negb (isPresent w outputDirectory)
                        then {[outputDirectory]} ∪ dirs w else dirs w;
                events := events w ++ pre ++ made |}).
  assert (Hmk : (if negb (isPresent w outputDirectory)
                 then mkdir outputDirectory else ret tt) (logged w pre)
                = (Returned tt, w1)).
  { subst w1 made. destruct (isPresent w outputDirectory); cbn [negb].
    - unfold ret, logged. cbn [files dirs events]. now rewrite app_nil_r.
    - unfold mkdir, bind. rewrite emit_logged. unfold logged.
      cbn [files dirs events]. now rewrite <- app_assoc. }
  unfold bind at 1. rewrite Hmk.
  unfold bind at 1. rewrite console_logged.
  unfold bind at 1.
  rewrite (getMp3Duration_ok inputFilePath _ stdout stderr totalDuration)
    by assumption.
  rewrite logged_logged.
  unfold bind at 1. rewrite console_logged, logged_logged.
  unfold bind at 1.
  match goal with
  | |- context [forLoop _ _ _ _ ?w2] =>
      destruct (forLoop_splitTrack inputFilePath cueMetadata outputDirectory
                  totalDuration [] (tracks cueMetadata) [] w2 eq_refl Hffmpeg)
        as (evs & Hloop & Hreq & Hwarn)
  end.
  cbn [length] in Hloop. rewrite Hloop.
  unfold bind at 1. rewrite console_logged, !logged_logged. unfold ret.
  eexists _, _. split; [reflexivity|]. split; [reflexivity|].
  split.
  - subst w1. unfold logged. cbn [events]. rewrite <- !app_assoc. reflexivity.
  - subst pre made.
    rewrite !ffmpegRequests_app, !warningsOf_app, Hreq, Hwarn.
    destruct (isPresent w outputDirectory); cbn; rewrite !app_nil_r;
      split; reflexivity.
Qed.

End Splitting.

Lemma splitMp3WithCue_windows_witness :
  let E := sampleEnv noParser sampleBinaries in
  let plan := windows (tracks sampleParsed) 120 in
  exists w' evs,
    @splitMp3WithCue E "mix.mp3" sampleParsed "out" sampleAudioWorld
    = (Returned (map (@windowPath E "mix.mp3" "out") (List.filter proper plan)),
       w')
    /\ files w' = files sampleAudioWorld
    /\ events w' = events sampleAudioWorld ++ evs
    /\ ffmpegRequests evs
       = map (@extractionRequest E "mix.mp3" sampleParsed "out")
           (List.filter proper plan)
    /\ warningsOf evs = map (@skipWarning E) (List.filter degenerate plan).
Proof.
  intros E plan.
  apply (proj1 (proj2 (@splitMp3WithCue_windows E))
           "mix.mp3" sampleParsed "out" 120%Q sampleAudioWorld
           ["120"; JS.LF] []);
    [vm_compute; reflexivity | cbn; lia | reflexivity | reflexivity |].
  intros win _. exists [], []. reflexivity.
Defined.

(** The sample run: the [-ss] and [-t] arguments of the three requests. *)
Example splitMp3WithCue_sample_run :
  map (fun args => (args !! 3%nat, args !! 5%nat))
    (ffmpegRequests
       (events
          (snd (@splitMp3WithCue (sampleEnv noParser sampleBinaries)
                  "mix.mp3" sampleParsed "out" sampleAudioWorld))))
  = [(Some "00:00:00.000", Some "00:00:30.000");
     (Some "00:00:30.000", Some "00:01:00.000");
     (Some "00:01:30.000", Some "00:00:30.000")].
Proof. vm_compute. reflexivity. Qed.

(** Two tracks that start together: the first window is the empty one. *)
Example windows_equal_starts :
  map (fun win => (startSeconds win, endSeconds win, degenerate win))
    (windows [sampleTrack 1 10; sampleTrack 2 10] 120)
  = [(10, 10, true); (10, 120, false)]%Q.
Proof. reflexivity. Qed.

(** * The clock string *)

Section ClockString.

Local Open Scope Q_scope.

Lemma Qfloor_unique (x : Q) (z : Z) :
  inject_Z z <= x -> x < inject_Z z + 1 -> Qfloor x = z.
Proof.
  intros Hle Hlt.
  pose proof (Qfloor_le x) as H1. pose proof (Qlt_floor x) as H2.
  rewrite inject_Z_plus in H2. change (inject_Z 1) with 1 in H2.
  assert (inject_Z z < inject_Z (Qfloor x + 1)) as H3
    by (rewrite inject_Z_plus; change (inject_Z 1) with 1; lra).
  assert (inject_Z (Qfloor x) < inject_Z (z + 1)) as H4
    by (rewrite inject_Z_plus; change (inject_Z 1) with 1; lra).
  rewrite <- Zlt_Qlt in H3, H4. lia.
Qed.

Lemma floor_bounds (x : Q) :
  inject_Z (Qfloor x) <= x /\ x < inject_Z (Qfloor x) + 1.
Proof.
  split; [apply Qfloor_le|].
  pose proof (Qlt_floor x) as H2.
  rewrite inject_Z_plus in H2. exact H2.
Qed.

Lemma trunc_nonneg (x : Q) : 0 <= x -> JS.trunc x = Qfloor x.
Proof.
  intros Hx. unfold JS.trunc. now rewrite (proj2 (Qle_bool_iff 0 x) Hx).
Qed.

(** For a non-negative [x], [x % m] is [x] minus the multiples of [m]
    below it. *)
Lemma rem_nonneg (x : Q) (m : Z) :
  (0 < m)%Z -> 0 <= x ->
  JS.rem x (inject_Z m) == x - inject_Z m * inject_Z (Qfloor (x / inject_Z m))
  /\ 0 <= JS.rem x (inject_Z m) /\ JS.rem x (inject_Z m) < inject_Z m.
Proof.
  intros Hm Hx. unfold JS.rem.
  assert (0 < inject_Z m) as Hm' by (change 0 with (inject_Z 0); now rewrite <- Zlt_Qlt).
  assert (0 <= x / inject_Z m) as Hq.
  { apply Qle_shift_div_l; [exact Hm'|]. lra. }
  rewrite (trunc_nonneg _ Hq).
  destruct (floor_bounds (x / inject_Z m)) as [Hlo Hhi].
  assert (x == inject_Z m * (x / inject_Z m)) as Hx'.
  { field. lra. }
  split; [reflexivity|].
  set (q := x / inject_Z m) in *. set (f := inject_Z (Qfloor q)) in *.
  split.
  - assert (inject_Z m * f <= inject_Z m * q) by (apply Qmult_le_l; assumption).
    lra.
  - assert (inject_Z m * q < inject_Z m * (f + 1)) by (apply Qmult_lt_l; assumption).
    lra.
Qed.

Lemma Z_of_Q_lt (a b : Z) : inject_Z a < inject_Z b -> (a < b)%Z.
Proof. now rewrite <- Zlt_Qlt. Qed.

(** The intermediate values of [formatTime] on a non-negative [s]. *)
Section Clock.

Variable s : Q.
Hypothesis Hs : 0 <= s.

Let h := Qfloor (s / 3600).
Let s1 := JS.rem s 3600.
Let m := Qfloor (s1 / 60).
Let s2 := JS.rem s1 60.
Let c := Qfloor s2.

Lemma s1_facts : s1 == s - 3600 * inject_Z h /\ 0 <= s1 /\ s1 < 3600.
Proof. apply (rem_nonneg s 3600); [lia | exact Hs]. Qed.

Lemma s2_facts : s2 == s1 - 60 * inject_Z m /\ 0 <= s2 /\ s2 < 60.
Proof. apply (rem_nonneg s1 60); [lia | apply s1_facts]. Qed.

Lemma c_range : (0 <= c < 60)%Z.
Proof.
  destruct s2_facts as (_ & Hlo & Hhi).
  destruct (floor_bounds s2) as [Hc1 Hc2]. fold c in Hc1, Hc2.
  split.
  - assert (inject_Z (-1) < inject_Z c) as Hc by (change (inject_Z (-1)) with (-1); lra).
    apply Z_of_Q_lt in Hc. lia.
  - apply Z_of_Q_lt. change (inject_Z 60) with 60. lra.
Qed.

Lemma m_range : (0 <= m < 60)%Z.
Proof.
  destruct s1_facts as (_ & Hlo & Hhi).
  destruct (floor_bounds (s1 / 60)) as [Hm1 Hm2]. fold m in Hm1, Hm2.
  assert (s1 / 60 == s1 * (1 # 60)) as E by (unfold Qdiv; reflexivity).
  rewrite E in Hm1, Hm2.
  split.
  - assert (inject_Z (-1) < inject_Z m) as Hc by (change (inject_Z (-1)) with (-1); lra).
    apply Z_of_Q_lt in Hc. lia.
  - apply Z_of_Q_lt. change (inject_Z 60) with 60. lra.
Qed.

Lemma floor_minutes : Qfloor (s / 60) = (60 * h + m)%Z.
Proof.
  destruct s1_facts as (E1 & _ & _).
  destruct (floor_bounds (s1 / 60)) as [Hm1 Hm2]. fold m in Hm1, Hm2.
  assert (s1 / 60 == s1 * (1 # 60)) as E by (unfold Qdiv; reflexivity).
  assert (s / 60 == s * (1 # 60)) as E' by (unfold Qdiv; reflexivity).
  rewrite E in Hm1, Hm2.
  apply Qfloor_unique; rewrite E', inject_Z_plus, inject_Z_mult;
    change (inject_Z 60) with 60; lra.
Qed.

Lemma floor_seconds : Qfloor s = (3600 * h + 60 * m + c)%Z.
Proof.
  destruct s1_facts as (E1 & _ & _). destruct s2_facts as (E2 & _ & _).
  destruct (floor_bounds s2) as [Hc1 Hc2]. fold c in Hc1, Hc2.
  apply Qfloor_unique; rewrite !inject_Z_plus, !inject_Z_mult;
    change (inject_Z 60) with 60; change (inject_Z 3600) with 3600; lra.
Qed.

Lemma fraction_kept : s2 - inject_Z c == s - inject_Z (Qfloor s).
Proof.
  destruct s1_facts as (E1 & _ & _). destruct s2_facts as (E2 & _ & _).
  rewrite floor_seconds, !inject_Z_plus, !inject_Z_mult.
  change (inject_Z 60) with 60; change (inject_Z 3600) with 3600. lra.
Qed.

Lemma formatTime_fields :
  formatTime s
  = clockText (Qfloor (s / 3600)) (Qfloor (s / 60) mod 60) (Qfloor s mod 60)
      (JS.round ((s - inject_Z (Qfloor s)) * 1000)).
Proof.
  unfold formatTime, clockText, JS.floor. fold h s1. fold m s2. fold c.
  rewrite floor_minutes, floor_seconds.
  replace ((60 * h + m) mod 60)%Z with m
    by (rewrite Z.add_comm, Z.mul_comm, Z_mod_plus_full;
        symmetry; apply Z.mod_small, m_range).
  replace ((3600 * h + 60 * m + c) mod 60)%Z with c.
  2:{ replace (3600 * h + 60 * m + c)%Z with (c + (60 * h + m) * 60)%Z by lia.
      rewrite Z_mod_plus_full. symmetry. apply Z.mod_small, c_range. }
  unfold JS.round.
  assert ((s2 - inject_Z c) * 1000 + (1 # 2)
          == (s - inject_Z (3600 * h + 60 * m + c)) * 1000 + (1 # 2)) as ->.
  { rewrite <- floor_seconds, fraction_kept. reflexivity. }
  reflexivity.
Qed.

End Clock.




Lemma width_below (n limit : nat) (k : Z) :
  forallb (fun i => width n (Z.of_nat i)) (seq 0 limit) = true ->
  (0 <= k < Z.of_nat limit)%Z ->
  String.length (JS.padStart n "0" (JS.ofInt k)) = n.
Proof.
  intros Hall Hk. rewrite forallb_forall in Hall.
  specialize (Hall (Z.to_nat k)). rewrite Z2Nat.id in Hall by lia.
  apply Nat.eqb_eq, Hall, in_seq. lia.
Qed.

Lemma width2 (k : Z) :
  (0 <= k < 100)%Z -> String.length (JS.padStart 2 "0" (JS.ofInt k)) = 2%nat.
Proof. apply (width_below 2 100). vm_compute. reflexivity. Qed.

Lemma width3 (k : Z) :
  (0 <= k < 1000)%Z -> String.length (JS.padStart 3 "0" (JS.ofInt k)) = 3%nat.
Proof. apply (width_below 3 1000). vm_compute. reflexivity. Qed.




Local Close Scope Q_scope.

(** The example of the specification: 1:30 and 37 frames. *)
Example formatTime_sample :
  formatTime (cueTimeToSeconds {| min := 1; sec := 30; frame := 37 |})
  = "00:01:30.493".
Proof. vm_compute. reflexivity. Qed.

(** C6, where the code departs from it.  A fractional part from 0.9995 on
    rounds to 1000 milliseconds and the code does not carry: for
    0.99951171875 seconds the text is [00:00:00.1000], whose last field
    has four digits (and which reads as a tenth of a second). *)
Theorem formatTime_millisecond_overflow :
  formatTime (2047 # 2048) = "00:00:00.1000"
  /\ formatTime (599996 # 10000) = "00:00:59.1000".
Proof. split; vm_compute; reflexivity. Qed.

End ClockString.

(** * More on the tracklist parser *)

Section TracklistLines.

Lemma prefix_app_short (p u v : string) :
  String.prefix p (u +:+ v) = true ->
  (String.length p <= String.length u)%nat ->
  String.prefix p u = true.
Proof.
  revert u. induction p as [|c p IH]; intros u Hp Hlen.
  - now destruct u.
  - destruct u as [|d u]; [simpl in Hlen; lia|].
    change (String d u +:+ v) with (String d (u +:+ v)) in Hp.
    cbn [String.prefix] in *. destruct (ascii_dec c d); [|discriminate].
    apply IH; [exact Hp | simpl in Hlen; lia].
Qed.

Lemma prefix_app_l (p q s : string) :
  String.prefix (p +:+ q) s = true -> String.prefix p s = true.
Proof.
  revert s. induction p as [|c p IH]; intros s Hp.
  - now destruct s.
  - destruct s as [|d s]; [discriminate|].
    change (String c p +:+ q) with (String c (p +:+ q)) in Hp.
    cbn [String.prefix] in *. destruct (ascii_dec c d); [|discriminate].
    now apply IH.
Qed.

(** No occurrence of [init ++ [c]] starts inside [a]. *)
Lemma no_early_occurrence (init : string) (c x : ascii) (a rest : string) :
  JS.includes (init +:+ String c "") (String x a +:+ init) = false ->
  String.prefix (init +:+ String c "")
    (String x a +:+ (init +:+ String c "") +:+ rest) = false
  /\ JS.includes (init +:+ String c "") (a +:+ init) = false.
Proof.
  change (String x a +:+ init) with (String x (a +:+ init)).
  rewrite includes_cons. intros [Hp Hinc]%orb_false_elim.
  split; [|exact Hinc].
  destruct (String.prefix _ (String x a +:+ _)) eqn:Hq; [|reflexivity].
  rewrite <- Hp. symmetry.
  apply prefix_app_short with (v := String c "" +:+ rest).
  - rewrite <- Hq. f_equal.
    change (String x (a +:+ init)) with (String x a +:+ init).
    now rewrite !append_assoc.
  - cbn [String.length]. rewrite !append_length. cbn [String.length]. lia.
Qed.

Lemma split_from_first (init : string) (c : ascii) (a rest cur : string) :
  JS.includes (init +:+ String c "") (a +:+ init) = false ->
  exists pieces,
    JS.split_from (init +:+ String c "") 0 cur
      (a +:+ (init +:+ String c "") +:+ rest)
    = (cur +:+ a) :: pieces
    /\ pieces <> []
    /\ JS.join (init +:+ String c "") pieces = rest.
Proof.
  set (sep := init +:+ String c "").
  assert (Hsep : sep <> "") by (subst sep; now destruct init).
  revert cur. induction a as [|x a IH]; intros cur Hinc.
  - cbn [String.append].
    pose proof (prefix_append sep rest) as Hp.
    pose proof (drop_append sep rest) as Hd.
    destruct sep as [|d sep'] eqn:E; [congruence|].
    change (String d sep' +:+ rest) with (String d (sep' +:+ rest)) in *.
    cbn [JS.split_from]. rewrite Hp.
    destruct (split_from_cons (String d sep') (String.length (String d sep') - 1)
                "" (sep' +:+ rest)) as (y & l & Hy).
    pose proof (join_split_from (String d sep')
                  (String.length (String d sep') - 1) "" (sep' +:+ rest) Hsep)
      as Hj.
    exists (y :: l). rewrite append_empty_r. split; [now rewrite Hy|].
    split; [discriminate|]. rewrite <- Hy, Hj.
    cbn [String.length JS.drop] in *.
    now replace (S (String.length sep') - 1)%nat with (String.length sep')
      by lia.
  - destruct (no_early_occurrence init c x a rest Hinc) as [Hp Hinc'].
    fold sep in Hp, Hinc'.
    change (String x a +:+ sep +:+ rest) with (String x (a +:+ sep +:+ rest))
      in *.
    cbn [JS.split_from]. rewrite Hp.
    destruct (IH (cur +:+ String x "") Hinc') as (pieces & Hs & Hne & Hj).
    exists pieces. rewrite Hs, append_assoc. now repeat split.
Qed.

Lemma replace_first (init : string) (c : ascii) (a rest : string) :
  JS.includes (init +:+ String c "") (a +:+ init) = false ->
  JS.replace ((init +:+ String c "") +:+ rest) ""
    (a +:+ (init +:+ String c "") +:+ rest) = a.
Proof.
  set (sep := init +:+ String c "").
  induction a as [|x a IH]; intros Hinc.
  - cbn [String.append].
    assert (JS.replace (sep +:+ rest) "" (sep +:+ rest)
            = "" +:+ JS.drop (String.length (sep +:+ rest)) (sep +:+ rest))
      as ->.
    { pose proof (prefix_append (sep +:+ rest) "") as Hp.
      rewrite append_empty_r in Hp.
      destruct (sep +:+ rest); cbn [JS.replace]; now rewrite Hp. }
    pose proof (drop_append (sep +:+ rest) "") as Hd.
    now rewrite append_empty_r in Hd.
  - destruct (no_early_occurrence init c x a rest Hinc) as [Hp Hinc'].
    fold sep in Hp, Hinc'.
    change (String x a +:+ sep +:+ rest) with (String x (a +:+ sep +:+ rest))
      in *.
    cbn [JS.replace].
    destruct (String.prefix (sep +:+ rest) (String x (a +:+ sep +:+ rest)))
      eqn:Hq.
    + apply prefix_app_l in Hq. congruence.
    + f_equal. now apply IH.
Qed.

Lemma after_first (init : string) (c : ascii) (a rest : string) :
  JS.includes (init +:+ String c "") (a +:+ init) = false ->
  after (a +:+ (init +:+ String c "") +:+ rest) (init +:+ String c "") = rest.
Proof.
  intros Hinc. unfold after, JS.split.
  destruct (split_from_first init c a rest "" Hinc) as (pieces & Hs & Hne & Hj).
  assert (JS.isEmpty (init +:+ String c "") = false) as -> by now destruct init.
  assert (JS.isEmpty (a +:+ (init +:+ String c "") +:+ rest) = false) as ->
    by (destruct a; [now destruct init | reflexivity]).
  rewrite Hs. cbn [length tail]. destruct pieces; [congruence|]. exact Hj.
Qed.

Lemma chars_append (a b : string) :
  list_ascii_of_string (a +:+ b)
  = list_ascii_of_string a ++ list_ascii_of_string b.
Proof. induction a as [|x a IH]; simpl; [reflexivity | now rewrite IH]. Qed.

Lemma includes_char (c : ascii) (s : string) :
  JS.includes (String c "") s = true <-> In c (list_ascii_of_string s).
Proof.
  induction s as [|x s IH]; [split; [discriminate | intros []]|].
  rewrite includes_cons, orb_true_iff, IH. cbn [String.prefix list_ascii_of_string In].
  destruct (ascii_dec c x) as [->|Hne].
  - split; [now left|]. intros _. left. now destruct s.
  - split; [intros [H|H]; [discriminate | now right]|].
    intros [H|H]; [congruence | now right].
Qed.

Lemma in_drop (c : ascii) (n : nat) (s : string) :
  In c (list_ascii_of_string (JS.drop n s)) -> In c (list_ascii_of_string s).
Proof.
  revert s. induction n as [|n IH]; intros s; [trivial|].
  destruct s as [|x s]; [trivial|]. cbn [JS.drop]. intros H. right. now apply IH.
Qed.

Lemma in_replace (c : ascii) (pat s : string) :
  In c (list_ascii_of_string (JS.replace pat "" s)) ->
  In c (list_ascii_of_string s).
Proof.
  induction s as [|x s IH]; cbn [JS.replace].
  - destruct (String.prefix pat ""); [apply in_drop | trivial].
  - destruct (String.prefix pat (String x s)); [apply in_drop|].
    intros [<-|H]; [now left | right; now apply IH].
Qed.

Lemma in_removed_CR (c : ascii) (s : string) :
  In c (list_ascii_of_string (JS.replaceAll JS.CR "" s)) ->
  In c (list_ascii_of_string s) /\ c <> ascii_of_nat 13.
Proof.
  unfold JS.replaceAll. induction s as [|x s IH]; [intros []|].
  cbn [JS.replaceAll_from]. unfold JS.CR, JS.chr at 1. cbn [String.prefix].
  destruct (ascii_dec (ascii_of_nat 13) x) as [<-|Hne].
  - replace (String.prefix "" s) with true by now destruct s.
    intros H. destruct (IH H). split; [now right | assumption].
  - intros [<-|H]; [split; [now left | congruence]|].
    destruct (IH H). split; [now right | assumption].
Qed.

Lemma in_after (c : ascii) (value delimiter : string) :
  delimiter <> "" ->
  In c (list_ascii_of_string (after value delimiter)) ->
  In c (list_ascii_of_string value).
Proof.
  intros Hd. unfold after, JS.split.
  destruct (JS.isEmpty value); [trivial|].
  replace (JS.isEmpty delimiter) with false by now destruct delimiter.
  pose proof (join_split_from delimiter 0 "" value Hd) as Hj.
  destruct (JS.split_from delimiter 0 "" value) as [|x [|y l]];
    cbn [length Nat.eqb tail]; trivial.
  - intros [].
  - rewrite join_cons2 in Hj. cbn [JS.drop String.append] in Hj.
    rewrite <- Hj, !chars_append, !in_app_iff. tauto.
Qed.

Lemma dash_has_space (s : string) :
  JS.includes " - " s = true -> In " "%char (list_ascii_of_string s).
Proof.
  induction s as [|x s IH]; [discriminate|].
  rewrite includes_cons. cbn [String.prefix list_ascii_of_string In].
  destruct (ascii_dec " " x) as [<-|Hne]; [now left|].
  cbn [orb]. intros H. right. now apply IH.
Qed.

(** X1.  [after] gives back the value when the delimiter does not occur in
    it, and otherwise what follows the first occurrence of the
    delimiter. *)
Theorem after_delimiter :
  (forall value delimiter : string,
      JS.isEmpty delimiter = false ->
      JS.includes delimiter value = false ->
      after value delimiter = value)
  /\ (forall (a init : string) (c : ascii) (rest : string),
        JS.includes (init +:+ String c "") (a +:+ init) = false ->
        after (a +:+ (init +:+ String c "") +:+ rest) (init +:+ String c "")
        = rest).
Proof.
  split.
  - intros value delimiter Hd Hinc. apply after_absent.
    + now destruct delimiter.
    + now apply includes_false_absent.
  - intros a init c rest. apply after_first.
Qed.

Lemma after_delimiter_witness :
  after "Intro" " - " = "Intro"
  /\ after ("A" +:+ (" -" +:+ String " " "") +:+ "B - C")
       (" -" +:+ String " " "")
     = "B - C".
Proof.
  split.
  - apply (proj1 after_delimiter "Intro" " - "); reflexivity.
  - apply (proj2 after_delimiter "A" " -" " "%char "B - C"). reflexivity.
Defined.

(** X2.  A line [<timestamp> <artist> - <title>], with a timestamp free of
    spaces and an artist in which no [" - "] begins, is parsed into that
    artist and that title (which may hold further [" - "]); carriage
    returns of the line are dropped first. *)
Theorem parseTracklist_wellformed_line
    (tracklist : string) (i : nat) (ts rest artist_ title_ : string) :
  tracklistLines tracklist !! i = Some (ts +:+ " " +:+ rest) ->
  JS.isEmpty ts = false ->
  JS.includes " " ts = false ->
  JS.replaceAll JS.CR "" rest = artist_ +:+ " - " +:+ title_ ->
  JS.includes " - " (artist_ +:+ " -") = false ->
  parseTracklist tracklist !! i
  = Some {| timestamp := if (i =? 0)%nat then "00:00" else ts;
            artist := artist_;
            title := title_ |}.
Proof.
  intros Hline Hts Hsp Hrest Hartist.
  assert (ts <> "") as Hne by now destruct ts.
  apply includes_false_absent in Hsp.
  unfold parseTracklist. fold (tracklistLines tracklist).
  rewrite list_lookup_imap, Hline. cbn [fmap option_fmap option_map].
  unfold parseLine.
  rewrite (lineTimestamp_token ts rest Hne Hsp),
    (withoutTimestamp_token ts rest Hne Hsp), Hrest.
  pose proof (after_first " -" " " artist_ title_ Hartist) as Hafter.
  pose proof (replace_first " -" " " artist_ title_ Hartist) as Hreplace.
  change (" -" +:+ String " " "") with " - " in Hafter, Hreplace.
  now rewrite Hafter, Hreplace.
Qed.

Lemma parseTracklist_wellformed_line_witness :
  parseTracklist
    ("0:30 A - B" +:+ JS.CR +:+ JS.LF +:+ "3:45 C - D - E" +:+ JS.CR +:+ JS.LF
     +:+ "5:00 X - Y") !! 1%nat
  = Some {| timestamp := "3:45"; artist := "C"; title := "D - E" |}.
Proof.
  apply (parseTracklist_wellformed_line _ 1 "3:45" ("C - D - E" +:+ JS.CR)
           "C" "D - E"); reflexivity.
Defined.

(** X3.  A line that holds no space at all, a lone timestamp for
    instance, gives an entry whose artist and title both repeat the whole
    line (carriage returns dropped); nothing is left empty. *)
Theorem parseTracklist_line_without_space
    (tracklist : string) (i : nat) (line : string) :
  tracklistLines tracklist !! i = Some line ->
  JS.isEmpty line = false ->
  JS.includes " " line = false ->
  parseTracklist tracklist !! i
  = Some {| timestamp := if (i =? 0)%nat then "00:00" else line;
            artist := JS.replaceAll JS.CR "" line;
            title := JS.replaceAll JS.CR "" line |}.
Proof.
  intros Hline Hne Hsp.
  assert (line <> "") as Hne' by now destruct line.
  destruct (withoutTimestamp_no_space line Hne'
              (includes_false_absent _ _ Hsp)) as [Hts Hrem].
  assert (JS.includes " - " (JS.replaceAll JS.CR "" line) = false) as Hdash.
  { destruct (JS.includes " - " _) eqn:E; [|reflexivity].
    apply dash_has_space, in_removed_CR in E as [E _].
    apply includes_char in E. congruence. }
  unfold parseTracklist. fold (tracklistLines tracklist).
  rewrite list_lookup_imap, Hline. cbn [fmap option_fmap option_map].
  unfold parseLine. rewrite Hts, Hrem.
  rewrite after_absent
    by (discriminate || now apply includes_false_absent).
  f_equal. f_equal. apply replace_longer. rewrite append_length.
  cbn [String.length]. lia.
Qed.

Lemma parseTracklist_line_without_space_witness :
  parseTracklist ("0:00 A - B" +:+ JS.LF +:+ "12:34") !! 1%nat
  = Some {| timestamp := "12:34"; artist := "12:34"; title := "12:34" |}.
Proof.
  apply (parseTracklist_line_without_space _ 1 "12:34"); reflexivity.
Defined.

(** X4.  No artist and no title that [parseTracklist] returns holds a
    carriage return, whatever the line endings of the tracklist. *)
Theorem parseTracklist_no_carriage_return
    (tracklist : string) (i : nat) (entry : Track) :
  parseTracklist tracklist !! i = Some entry ->
  JS.includes JS.CR (title entry) = false
  /\ JS.includes JS.CR (artist entry) = false.
Proof.
  unfold parseTracklist. rewrite list_lookup_imap.
  destruct (JS.split JS.LF (JS.trim tracklist) !! i) as [line|];
    [|discriminate].
  intros [= <-]. unfold parseLine. cbn [title artist].
  assert (forall s, (In (ascii_of_nat 13) (list_ascii_of_string s) ->
                     In (ascii_of_nat 13)
                       (list_ascii_of_string (withoutTimestamp line))) ->
                    JS.includes JS.CR s = false) as Hfree.
  { intros s Hin. destruct (JS.includes JS.CR s) eqn:E; [|reflexivity].
    apply includes_char, Hin, in_removed_CR in E as [_ E]. congruence. }
  split; apply Hfree.
  - apply in_after. discriminate.
  - apply in_replace.
Qed.

Lemma parseTracklist_no_carriage_return_witness :
  JS.includes JS.CR "B" = false /\ JS.includes JS.CR "A" = false.
Proof.
  apply (parseTracklist_no_carriage_return
           ("0:30 A - B" +:+ JS.CR +:+ JS.LF +:+ "3:45 C - D") 0
           {| timestamp := "00:00"; artist := "A"; title := "B" |}).
  reflexivity.
Defined.

End TracklistLines.

(** * More on the CUE serializer and the conversion *)

Section Serializer.

Lemma endsSolid_app (a b : string) : endsSolid b -> endsSolid (a +:+ b).
Proof.
  intros (u & c & -> & Hc). exists (a +:+ u), c. now rewrite append_assoc.
Qed.

Lemma trimEnd_line (s : string) :
  endsSolid s -> JS.trimEnd (s +:+ JS.LF) +:+ JS.LF = s +:+ JS.LF.
Proof.
  intros (u & c & -> & Hc). f_equal.
  rewrite trimEnd_append. cbn [JS.LF JS.chr JS.trimEnd JS.isEmpty].
  change (JS.isWhiteSpace (ascii_of_nat 10)) with true. cbn [andb JS.isEmpty].
  rewrite trimEnd_append. cbn [JS.trimEnd]. rewrite Hc. reflexivity.
Qed.

(** The track blocks are empty or a run of lines, the last one ending in
    the [:00] of its index time. *)
Lemma generateCueTracks_lines (i : nat) (trackList : list Track) (before : string) :
  endsSolid before ->
  exists s, before +:+ JS.LF +:+ generateCueTracks i trackList = s +:+ JS.LF
            /\ endsSolid s.
Proof.
  revert i before. induction trackList as [|track rest IH]; intros i before Hb.
  - exists before. cbn [generateCueTracks]. now rewrite append_empty_r.
  - cbn [generateCueTracks]. unfold timeToFrames.
    set (block := JS.TAB +:+ "TRACK "
                  +:+ JS.padStart 2 "0" (JS.ofInt (Z.of_nat i + 1)) +:+ " AUDIO"
                  +:+ JS.LF +:+ JS.TAB +:+ JS.TAB +:+ "TITLE " +:+ JS.QUOTE
                  +:+ title track +:+ JS.QUOTE +:+ JS.LF +:+ JS.TAB +:+ JS.TAB
                  +:+ "PERFORMER " +:+ JS.QUOTE +:+ artist track +:+ JS.QUOTE
                  +:+ JS.LF +:+ JS.TAB +:+ JS.TAB +:+ "INDEX 01 "
                  +:+ timestamp track +:+ ":00").
    destruct (IH (S i) (before +:+ JS.LF +:+ block)) as (s & Hs & Hsolid).
    { apply endsSolid_app, endsSolid_app. subst block.
      repeat apply endsSolid_app. now exists ":0", "0"%char. }
    exists s. split; [|exact Hsolid]. rewrite <- Hs. subst block.
    now rewrite !append_assoc.
Qed.

(** X5.  The sheet that [generateCueFileContent] returns is exactly the
    TITLE line, the FILE line and the four lines of each track, every one
    ended by a newline: the final trimming takes nothing away but the last
    newline, which is put back. *)
Theorem generateCueFileContent_text
    (trackList : list Track) (albumTitle filename : string) :
  generateCueFileContent trackList albumTitle filename
  = "TITLE " +:+ JS.QUOTE +:+ albumTitle +:+ JS.QUOTE +:+ JS.LF
    +:+ "FILE " +:+ JS.QUOTE +:+ filename +:+ JS.QUOTE +:+ " MP3" +:+ JS.LF
    +:+ generateCueTracks 0 trackList.
Proof.
  unfold generateCueFileContent.
  destruct (generateCueTracks_lines 0 trackList
              ("TITLE " +:+ JS.QUOTE +:+ albumTitle +:+ JS.QUOTE +:+ JS.LF
               +:+ "FILE " +:+ JS.QUOTE +:+ filename +:+ JS.QUOTE +:+ " MP3"))
    as (s & Hs & Hsolid).
  { repeat apply endsSolid_app. now exists " MP", "3"%char. }
  rewrite !append_assoc in Hs. rewrite Hs. now apply trimEnd_line.
Qed.





(** X7.  [convertTracklistToCue] never throws and never ends the process:
    whatever its arguments and the state of the file system it returns
    normally, leaves the directories as they are and changes no file
    other than the one at the output path. *)
Theorem convertTracklistToCue_always_returns
    (inputFilePath outputFilePath albumTitle audioFilename : string)
    (w : World) :
  exists w',
    convertTracklistToCue inputFilePath outputFilePath albumTitle
      audioFilename w = (Returned tt, w')
    /\ dirs w' = dirs w
    /\ forall path, path <> outputFilePath -> files w' !! path = files w !! path.
Proof.
  unfold convertTracklistToCue, tryCatch. unfold bind at 1.
  unfold readFile at 1. unfold bind at 1. rewrite emit_logged.
  cbn [logged files dirs].
  destruct (files w !! inputFilePath) as [content|].
  - unfold ret at 1. unfold bind at 1. unfold writeFile at 1.
    unfold bind at 1. rewrite emit_logged. cbn [logged files dirs].
    destruct (JS.isEmpty outputFilePath);
      [|destruct (bool_decide (outputFilePath ∈ dirs w))].
    + unfold throw at 1. rewrite console_logged. eexists.
      split; [reflexivity|]. split; reflexivity.
    + unfold throw at 1. rewrite console_logged. eexists.
      split; [reflexivity|]. split; reflexivity.
    + rewrite console_logged. eexists. split; [reflexivity|].
      split; [reflexivity|].
      intros path Hpath. cbn [logged files]. now apply lookup_insert_ne.
  - destruct (bool_decide (inputFilePath ∈ dirs w)); unfold throw at 1;
      rewrite console_logged; eexists; (split; [reflexivity|]);
      split; reflexivity.
Qed.

End Serializer.

(** * More on the CUE parsing adapter *)

Section AdapterEdges.

Context `{Env}.

Lemma parseCueFile_missing (cueFilePath : string) (w : World) :
  isPresent w cueFilePath = false ->
  parseCueFile cueFilePath w
  = (Thrown (JsError ("CUE file not found: " +:+ cueFilePath)),
     logged w [ExistsSync cueFilePath]).
Proof.
  intros Habs. unfold parseCueFile. unfold bind at 1.
  now rewrite existsSync_logged, Habs.
Qed.

Lemma parseCueFile_rejected
    (cueFilePath content message : string) (w : World) :
  files w !! cueFilePath = Some content ->
  cueParser_parse cueFilePath content = ParseThrows message ->
  parseCueFile cueFilePath w
  = (Thrown (JsError ("Error parsing CUE file with cue-parser: " +:+ message)),
     logged w [ExistsSync cueFilePath; CueParse cueFilePath]).
Proof.
  intros Hf Hparse. unfold parseCueFile. unfold bind at 1.
  rewrite existsSync_logged, (present_file _ _ _ Hf). cbn [negb].
  unfold bind at 1. unfold tryCatch.
  rewrite (cueParse_logged _ content), Hparse by exact Hf.
  now rewrite logged_logged.
Qed.

Lemma parseCueFile_no_files
    (cueFilePath content : string) (sheet : option CueSheet) (w : World) :
  files w !! cueFilePath = Some content ->
  cueParser_parse cueFilePath content = ParseReturns sheet ->
  match sheet ≫= sheet_files with
  | Some (_ :: _) => False
  | _ => True
  end ->
  parseCueFile cueFilePath w
  = (Thrown (JsError ("No file entries found in CUE sheet: " +:+ cueFilePath)),
     logged w [ExistsSync cueFilePath; CueParse cueFilePath]).
Proof.
  intros Hf Hparse Hnone. unfold parseCueFile. unfold bind at 1.
  rewrite existsSync_logged, (present_file _ _ _ Hf). cbn [negb].
  unfold bind at 1. unfold tryCatch.
  rewrite (cueParse_logged _ content), Hparse by exact Hf.
  rewrite logged_logged.
  destruct (sheet ≫= sheet_files) as [[|entry others]|];
    [reflexivity | contradiction | reflexivity].
Qed.

Lemma parseCueFile_directory (cueFilePath : string) (w : World) :
  files w !! cueFilePath = None ->
  isPresent w cueFilePath = true ->
  parseCueFile cueFilePath w
  = (Thrown (JsError ("Error parsing CUE file with cue-parser: "
                      +:+ errorMessage
                            (SystemError "EISDIR"
                               "illegal operation on a directory, read"
                               cueFilePath))),
     logged w [ExistsSync cueFilePath; CueParse cueFilePath]).
Proof.
  intros Hf Hpresent. unfold parseCueFile. unfold bind at 1.
  rewrite existsSync_logged, Hpresent. cbn [negb].
  unfold bind at 1. unfold tryCatch, cueParse. unfold bind at 1.
  rewrite emit_logged. cbn [logged files]. rewrite Hf.
  unfold throw at 1. unfold logged. cbn [files dirs events].
  now rewrite <- app_assoc.
Qed.

(** X8.  The three ways in which [parseCueFile] fails before it looks at
    any track: the path is not there (the grammar parser is not even
    called), the grammar parser throws (its message is wrapped), or the
    parsed sheet has no FILE entry. *)
Theorem parseCueFile_failures :
  (forall (cueFilePath : string) (w : World),
      isPresent w cueFilePath = false ->
      parseCueFile cueFilePath w
      = (Thrown (JsError ("CUE file not found: " +:+ cueFilePath)),
         logged w [ExistsSync cueFilePath]))
  /\ (forall (cueFilePath content message : string) (w : World),
        files w !! cueFilePath = Some content ->
        cueParser_parse cueFilePath content = ParseThrows message ->
        parseCueFile cueFilePath w
        = (Thrown (JsError ("Error parsing CUE file with cue-parser: "
                            +:+ message)),
           logged w [ExistsSync cueFilePath; CueParse cueFilePath]))
  /\ (forall (cueFilePath content : string) (sheet : option CueSheet)
             (w : World),
        files w !! cueFilePath = Some content ->
        cueParser_parse cueFilePath content = ParseReturns sheet ->
        length (default [] (sheet ≫= sheet_files)) = 0%nat ->
        parseCueFile cueFilePath w
        = (Thrown (JsError ("No file entries found in CUE sheet: "
                            +:+ cueFilePath)),
           logged w [ExistsSync cueFilePath; CueParse cueFilePath])).
Proof.
  split; [exact parseCueFile_missing|]. split; [exact parseCueFile_rejected|].
  intros cueFilePath content sheet w Hf Hparse Hlen.
  apply (parseCueFile_no_files _ content sheet); try assumption.
  now destruct (sheet ≫= sheet_files) as [[|entry others]|].
Qed.

Lemma indexWarnings_warnings (rawTracks : list RawTrack) :
  Forall (fun e => isWarning e = true) (indexWarnings rawTracks).
Proof.
  induction rawTracks as [|track rest IH]; [constructor|].
  unfold indexWarnings. cbn [omap list_omap].
  destruct (findIndex01 (raw_indexes track)); [exact IH|].
  now constructor.
Qed.

(** X9.  [parseCueFile] only reads: whatever it is given and however it
    ends, the files and directories are as before, and all it adds to the
    trace is the look at the path, the call of the grammar parser and
    warnings; it writes nothing and starts no process. *)
Theorem parseCueFile_reads_only (cueFilePath : string) (w : World) :
  exists evs,
    snd (parseCueFile cueFilePath w) = logged w evs
    /\ Forall (adapterEvent cueFilePath) evs.
Proof.
  assert (Hpair : Forall (adapterEvent cueFilePath)
                    [ExistsSync cueFilePath; CueParse cueFilePath])
    by (repeat constructor; unfold adapterEvent; tauto).
  destruct (files w !! cueFilePath) as [content|] eqn:Hf.
  - destruct (cueParser_parse cueFilePath content) as [message|sheet]
      eqn:Hparse.
    { rewrite (parseCueFile_rejected _ content message) by assumption.
      now eexists. }
    destruct (sheet ≫= sheet_files) as [[|entry others]|] eqn:Hfiles.
    1, 3: rewrite (parseCueFile_no_files _ content sheet)
            by (assumption || now rewrite Hfiles); now eexists.
    destruct sheet as [sheet|]; [|discriminate]. cbn in Hfiles.
    rewrite (parseCueFile_first_file _ _ _ _ _ _ Hf Hparse Hfiles).
    destruct (file_tracks entry) as [[|track rest]|]; try now eexists.
    eexists. split; [reflexivity|]. apply Forall_app. split; [exact Hpair|].
    eapply Forall_impl; [apply indexWarnings_warnings|].
    intros e He. unfold adapterEvent. tauto.
  - destruct (isPresent w cueFilePath) eqn:Hpresent.
    + rewrite parseCueFile_directory by assumption. now eexists.
    + rewrite parseCueFile_missing by assumption. eexists.
      split; [reflexivity|]. repeat constructor.
Qed.

Lemma omap_trackOf_length (rawTracks : list RawTrack) :
  length (omap trackOf rawTracks) = length (List.filter hasIndex01 rawTracks)
  /\ length (indexWarnings rawTracks)
     = length (List.filter (fun t => negb (hasIndex01 t)) rawTracks).
Proof.
  induction rawTracks as [|track rest [IH1 IH2]]; [split; reflexivity|].
  unfold indexWarnings in *. cbn [omap list_omap List.filter].
  destruct (findIndex01 (raw_indexes track)) as [index01|] eqn:E.
  - assert (hasIndex01 track = true) as -> by (unfold hasIndex01; now rewrite E).
    unfold trackOf at 1. rewrite E. cbn [negb length]. split; congruence.
  - assert (hasIndex01 track = false) as -> by (unfold hasIndex01; now rewrite E).
    unfold trackOf at 1. rewrite E. cbn [negb length]. split; congruence.
Qed.

(** X10.  When [parseCueFile] accepts a sheet, the tracks it returns are
    the converted tracks of the first FILE entry that have an index
    number 1, each exactly once (in sorted order); every other track of
    that entry gets exactly one warning.  So returned tracks and warnings
    together are as many as the tracks of the entry. *)
Theorem parseCueFile_accounts_for_tracks
    (cueFilePath content : string) (sheet : CueSheet)
    (entry : CueFileEntry) (others : list CueFileEntry)
    (rawTracks : list RawTrack) (w : World) :
  files w !! cueFilePath = Some content ->
  cueParser_parse cueFilePath content = ParseReturns (Some sheet) ->
  sheet_files sheet = Some (entry :: others) ->
  file_tracks entry = Some rawTracks ->
  (0 < length rawTracks)%nat ->
  exists parsed,
    parseCueFile cueFilePath w
    = (Returned parsed,
       logged w ([ExistsSync cueFilePath; CueParse cueFilePath]
                 ++ indexWarnings rawTracks))
    /\ Permutation (tracks parsed) (omap trackOf rawTracks)
    /\ length (tracks parsed) = length (List.filter hasIndex01 rawTracks)
    /\ (length (tracks parsed) + length (indexWarnings rawTracks))%nat
       = length rawTracks.
Proof.
  intros Hf Hparse Hfiles Htracks Hpos.
  rewrite (parseCueFile_first_file _ _ _ _ _ _ Hf Hparse Hfiles), Htracks.
  destruct rawTracks as [|track rest]; [cbn in Hpos; lia|].
  eexists. split; [reflexivity|].
  destruct (omap_trackOf_length (track :: rest)) as [Hl Hw].
  pose proof (sortTracks_perm (omap trackOf (track :: rest))) as Hperm.
  cbn [tracks parsedCue]. split; [exact Hperm|].
  rewrite (Permutation_length Hperm), Hl, Hw. split; [reflexivity|].
  rewrite List.filter_length. reflexivity.
Qed.

(** X11.  A sheet whose first FILE entry has tracks, none of them with an
    index number 1, is not refused: [parseCueFile] returns, with an empty
    track list and one warning per track. *)
Theorem parseCueFile_may_return_no_track
    (cueFilePath content : string) (sheet : CueSheet)
    (entry : CueFileEntry) (others : list CueFileEntry)
    (rawTracks : list RawTrack) (w : World) :
  files w !! cueFilePath = Some content ->
  cueParser_parse cueFilePath content = ParseReturns (Some sheet) ->
  sheet_files sheet = Some (entry :: others) ->
  file_tracks entry = Some rawTracks ->
  (0 < length rawTracks)%nat ->
  forallb (fun t => negb (hasIndex01 t)) rawTracks = true ->
  exists parsed w',
    parseCueFile cueFilePath w = (Returned parsed, w')
    /\ tracks parsed = []
    /\ length (warningsOf (drop (length (events w)) (events w')))
       = length rawTracks.
Proof.
  intros Hf Hparse Hfiles Htracks Hpos Hnone.
  rewrite (parseCueFile_first_file _ _ _ _ _ _ Hf Hparse Hfiles), Htracks.
  destruct rawTracks as [|track rest]; [cbn in Hpos; lia|].
  eexists _, _. split; [reflexivity|].
  destruct (omap_trackOf_length (track :: rest)) as [Hl Hw].
  assert (List.filter hasIndex01 (track :: rest) = []) as Hno.
  { clear -Hnone. induction (track :: rest) as [|t l IH]; [reflexivity|].
    cbn [forallb] in Hnone. apply andb_true_iff in Hnone as [Ht Hl].
    cbn [List.filter]. apply negb_true_iff in Ht. rewrite Ht. now apply IH. }
  assert (List.filter (fun t => negb (hasIndex01 t)) (track :: rest)
          = track :: rest) as Hall.
  { clear -Hnone. induction (track :: rest) as [|t l IH]; [reflexivity|].
    cbn [forallb] in Hnone. apply andb_true_iff in Hnone as [Ht Hl].
    cbn [List.filter]. rewrite Ht. f_equal. now apply IH. }
  split.
  - cbn [tracks parsedCue]. rewrite Hno in Hl.
    destruct (omap trackOf (track :: rest)); [reflexivity | discriminate].
  - unfold logged. cbn [events]. rewrite drop_app_length.
    rewrite warningsOf_app. cbn [warningsOf List.filter isWarning app].
    fold (warningsOf (indexWarnings (track :: rest))).
    unfold warningsOf.
    rewrite (List.forallb_filter_id isWarning).
    + now rewrite Hw, Hall.
    + apply forallb_forall. intros e He.
      pose proof (indexWarnings_warnings (track :: rest)) as Hf'.
      rewrite List.Forall_forall in Hf'. now apply Hf'.
Qed.

End AdapterEdges.

Lemma parseCueFile_failures_witness :
  let E := sampleEnv noParser noBinary in
  let sheetLess := sampleEnv emptySheetParser noBinary in
  (@parseCueFile E "mix.cue" emptyWorld
   = (Thrown (JsError ("CUE file not found: " +:+ "mix.cue")),
      logged emptyWorld [ExistsSync "mix.cue"]))
  /\ (@parseCueFile E "mix.cue" sampleCueWorld
      = (Thrown (JsError ("Error parsing CUE file with cue-parser: "
                          +:+ "no sheet")),
         logged sampleCueWorld [ExistsSync "mix.cue"; CueParse "mix.cue"]))
  /\ (@parseCueFile sheetLess "mix.cue" sampleCueWorld
      = (Thrown (JsError ("No file entries found in CUE sheet: " +:+ "mix.cue")),
         logged sampleCueWorld [ExistsSync "mix.cue"; CueParse "mix.cue"])).
Proof.
  intros E sheetLess. split; [|split].
  - apply (proj1 (@parseCueFile_failures E) "mix.cue" emptyWorld). reflexivity.
  - apply (proj1 (proj2 (@parseCueFile_failures E)) "mix.cue"
             "(a sheet with two FILE entries)" "no sheet" sampleCueWorld);
      reflexivity.
  - apply (proj2 (proj2 (@parseCueFile_failures sheetLess)) "mix.cue"
             "(a sheet with two FILE entries)"
             (Some {| sheet_title := None; sheet_performer := None;
                      sheet_files := Some [] |}) sampleCueWorld);
      reflexivity.
Defined.

Lemma parseCueFile_accounts_for_tracks_witness :
  let rawTracks := default [] (file_tracks sampleFirstFile) in
  exists parsed,
    @parseCueFile (sampleEnv sampleParser noBinary) "mix.cue" sampleCueWorld
    = (Returned parsed,
       logged sampleCueWorld
         ([ExistsSync "mix.cue"; CueParse "mix.cue"] ++ indexWarnings rawTracks))
    /\ Permutation (tracks parsed) (omap trackOf rawTracks)
    /\ length (tracks parsed) = length (List.filter hasIndex01 rawTracks)
    /\ (length (tracks parsed) + length (indexWarnings rawTracks))%nat
       = length rawTracks.
Proof.
  intros rawTracks.
  apply (@parseCueFile_accounts_for_tracks (sampleEnv sampleParser noBinary)
           "mix.cue" "(a sheet with two FILE entries)" sampleSheet
           sampleFirstFile [sampleSecondFile] rawTracks sampleCueWorld);
    [reflexivity | reflexivity | reflexivity | reflexivity | cbn; lia].
Defined.

Lemma parseCueFile_may_return_no_track_witness :
  exists parsed w',
    @parseCueFile (sampleEnv noIndexParser noBinary) "mix.cue" sampleCueWorld
    = (Returned parsed, w')
    /\ tracks parsed = []
    /\ length (warningsOf (drop (length (events sampleCueWorld)) (events w')))
       = length (default [] (file_tracks noIndexFile)).
Proof.
  apply (@parseCueFile_may_return_no_track (sampleEnv noIndexParser noBinary)
           "mix.cue" "(a sheet with two FILE entries)" noIndexSheet
           noIndexFile [] (default [] (file_tracks noIndexFile))
           sampleCueWorld);
    [reflexivity | reflexivity | reflexivity | reflexivity | cbn; lia
    | reflexivity].
Defined.

(** * More on the extraction driver *)

Section DriverEdges.

Context `{Env}.

Lemma getMp3Duration_run (filePath : string) (w : World) :
  getMp3Duration filePath w
  = (probeResult (spawn_run "ffprobe" (ffprobeArgs filePath) (files w)),
     logged w [Spawn "ffprobe" (ffprobeArgs filePath)]).
Proof.
  unfold getMp3Duration. unfold bind at 1. unfold spawn. unfold bind at 1.
  rewrite emit_logged. unfold ret at 1. fold (ffprobeArgs filePath).
  unfold probeResult.
  destruct (spawn_run "ffprobe" (ffprobeArgs filePath) (files w))
    as [message|code stdout stderr]; [reflexivity|].
  destruct (bool_decide (code = Some 0)); [|reflexivity].
  now destruct (parseFloat (JS.trim (String.concat "" stdout))).
Qed.

(** X12.  [getMp3Duration] starts [ffprobe] once and touches nothing
    else.  It returns the duration when the process ends with code 0 and
    its output parses as a number; it throws when the process cannot be
    started, when it ends with another code (or by a signal), and when
    the output is not a number. *)
Theorem getMp3Duration_outcomes
    (filePath : string) (w : World) :
  snd (getMp3Duration filePath w)
  = logged w [Spawn "ffprobe" (ffprobeArgs filePath)]
  /\ (forall stdout stderr duration,
        spawn_run "ffprobe" (ffprobeArgs filePath) (files w)
        = SpawnClose (Some 0) stdout stderr ->
        parseFloat (JS.trim (String.concat "" stdout)) = Some duration ->
        fst (getMp3Duration filePath w) = Returned duration)
  /\ (forall stdout stderr,
        spawn_run "ffprobe" (ffprobeArgs filePath) (files w)
        = SpawnClose (Some 0) stdout stderr ->
        parseFloat (JS.trim (String.concat "" stdout)) = None ->
        fst (getMp3Duration filePath w)
        = Thrown (JsError ("Could not parse duration from ffprobe output: "
                           +:+ String.concat "" stdout +:+ ". Error: "
                           +:+ String.concat "" stderr)))
  /\ (forall code stdout stderr,
        spawn_run "ffprobe" (ffprobeArgs filePath) (files w)
        = SpawnClose code stdout stderr ->
        code <> Some 0 ->
        fst (getMp3Duration filePath w)
        = Thrown (JsError ("ffprobe exited with code " +:+ codeToString code
                           +:+ ": " +:+ String.concat "" stderr)))
  /\ (forall message,
        spawn_run "ffprobe" (ffprobeArgs filePath) (files w)
        = SpawnError message ->
        exists text,
          fst (getMp3Duration filePath w) = Thrown (JsError (text +:+ message))).
Proof.
  rewrite getMp3Duration_run. cbn [fst snd]. split; [reflexivity|].
  repeat split.
  - intros stdout stderr duration -> Hparse. cbn [probeResult].
    rewrite bool_decide_eq_true_2 by reflexivity. now rewrite Hparse.
  - intros stdout stderr -> Hparse. cbn [probeResult].
    rewrite bool_decide_eq_true_2 by reflexivity. now rewrite Hparse.
  - intros code stdout stderr -> Hcode. cbn [probeResult].
    now rewrite bool_decide_eq_false_2.
  - intros message ->. cbn [probeResult]. eexists. reflexivity.
Qed.

Lemma splitMp3WithCue_missing_audio
    (inputFilePath : string) (cueMetadata : ParsedCueFile)
    (outputDirectory : string) (w : World) :
  isPresent w inputFilePath = false ->
  splitMp3WithCue inputFilePath cueMetadata outputDirectory w
  = (Thrown (JsError ("Input audio file not found: " +:+ inputFilePath)),
     logged w [Console Log [Text "splitMp3WithCue: ABOUT TO existsSync?"];
               ExistsSync inputFilePath]).
Proof.
  intros Habs. unfold splitMp3WithCue.
  unfold bind at 1. rewrite console_logged.
  unfold bind at 1. rewrite existsSync_logged, logged_logged.
  change (isPresent (logged w _) inputFilePath) with (isPresent w inputFilePath).
  now rewrite Habs.
Qed.

Lemma splitMp3WithCue_no_tracks
    (inputFilePath : string) (cueMetadata : ParsedCueFile)
    (outputDirectory : string) (w : World) :
  isPresent w inputFilePath = true ->
  tracks cueMetadata = [] ->
  splitMp3WithCue inputFilePath cueMetadata outputDirectory w
  = (Thrown (JsError "No tracks provided for splitting."),
     logged w [Console Log [Text "splitMp3WithCue: ABOUT TO existsSync?"];
               ExistsSync inputFilePath]).
Proof.
  intros Hpresent Hnone. unfold splitMp3WithCue.
  unfold bind at 1. rewrite console_logged.
  unfold bind at 1. rewrite existsSync_logged, logged_logged.
  change (isPresent (logged w _) inputFilePath) with (isPresent w inputFilePath).
  now rewrite Hpresent, Hnone.
Qed.

(** X13.  [splitMp3WithCue] refuses a missing audio file and an empty
    track list at once: it throws after a look at the audio path, before
    the output directory is created and before any process is started. *)
Theorem splitMp3WithCue_refuses
    (inputFilePath : string) (cueMetadata : ParsedCueFile)
    (outputDirectory : string) (w : World) :
  (isPresent w inputFilePath = false ->
   splitMp3WithCue inputFilePath cueMetadata outputDirectory w
   = (Thrown (JsError ("Input audio file not found: " +:+ inputFilePath)),
      logged w [Console Log [Text "splitMp3WithCue: ABOUT TO existsSync?"];
                ExistsSync inputFilePath]))
  /\ (isPresent w inputFilePath = true ->
      length (tracks cueMetadata) = 0%nat ->
      splitMp3WithCue inputFilePath cueMetadata outputDirectory w
      = (Thrown (JsError "No tracks provided for splitting."),
         logged w [Console Log [Text "splitMp3WithCue: ABOUT TO existsSync?"];
                   ExistsSync inputFilePath])).
Proof.
  split.
  - apply splitMp3WithCue_missing_audio.
  - intros Hpresent Hlen. apply splitMp3WithCue_no_tracks; [exact Hpresent|].
    now destruct (tracks cueMetadata).
Qed.

(** The steps of [splitMp3WithCue] before the probe: they leave the files
    alone, make sure of the output directory and ask for no extraction. *)
Lemma splitMp3WithCue_setup
    (inputFilePath : string) (cueMetadata : ParsedCueFile)
    (outputDirectory : string) (w : World) :
  isPresent w inputFilePath = true ->
  (0 < length (tracks cueMetadata))%nat ->
  exists w1 pre,
    splitMp3WithCue inputFilePath cueMetadata outputDirectory w
    = splitFromProbe inputFilePath cueMetadata outputDirectory w1
    /\ files w1 = files w
    /\ events w1 = events w ++ pre
    /\ ffmpegRequests pre = []
    /\ isPresent w1 outputDirectory = true.
Proof.
  intros Hpresent Hpos. unfold splitMp3WithCue.
  unfold bind at 1. rewrite console_logged.
  unfold bind at 1. rewrite existsSync_logged, logged_logged.
  change (isPresent (logged w _) inputFilePath) with (isPresent w inputFilePath).
  rewrite Hpresent. cbn [negb].
  destruct (length (tracks cueMetadata)) as [|n] eqn:Hlen; [lia|].
  cbn [Nat.eqb]. rewrite <- Hlen.
  do 3 (unfold bind at 1; rewrite console_logged, logged_logged).
  unfold bind at 1. rewrite existsSync_logged, logged_logged.
  change (isPresent (logged w _) outputDirectory)
    with (isPresent w outputDirectory).
  match goal with
  | |- context [logged w (?evs ++ [ExistsSync outputDirectory])] =>
      remember (evs ++ [ExistsSync outputDirectory]) as pre eqn:Hpre
  end.
  destruct (isPresent w outputDirectory) eqn:Hdir; cbn [negb].
  - unfold bind at 1. unfold ret at 1.
    unfold bind at 1. rewrite console_logged, logged_logged.
    eexists _, _. split; [reflexivity|]. split; [reflexivity|].
    split; [reflexivity|]. split; [|exact Hdir].
    subst pre. reflexivity.
  - unfold bind at 1. unfold mkdir at 1. unfold bind at 1.
    rewrite emit_logged, logged_logged.
    unfold bind at 1. rewrite console_logged.
    eexists _, _. split; [reflexivity|]. cbn [logged files dirs events].
    split; [reflexivity|]. split; [now rewrite <- !app_assoc|].
    split; [subst pre; reflexivity|].
    unfold isPresent. cbn [dirs]. rewrite orb_true_iff. right.
    apply bool_decide_eq_true_2. set_solver.
Qed.

Lemma since_logged (w w' : World) (evs : list Event) :
  events w' = events w ++ evs -> since w w' = evs.
Proof. intros Hev. unfold since. rewrite Hev. apply drop_app_length. Qed.

(** X14.  When the duration probe fails, [splitMp3WithCue] throws the
    error of the probe and asks for no extraction at all; the files are as
    before, but the output directory has been created already. *)
Theorem splitMp3WithCue_probe_failure
    (inputFilePath : string) (cueMetadata : ParsedCueFile)
    (outputDirectory : string) (w : World) (e : Error) :
  isPresent w inputFilePath = true ->
  (0 < length (tracks cueMetadata))%nat ->
  fst (getMp3Duration inputFilePath w) = Thrown e ->
  exists w',
    splitMp3WithCue inputFilePath cueMetadata outputDirectory w = (Thrown e, w')
    /\ files w' = files w
    /\ ffmpegRequests (since w w') = []
    /\ isPresent w' outputDirectory = true.
Proof.
  intros Hpresent Hpos Hprobe.
  destruct (splitMp3WithCue_setup inputFilePath cueMetadata outputDirectory w
              Hpresent Hpos) as (w1 & pre & -> & Hfiles & Hevents & Hreq & Hdir).
  rewrite getMp3Duration_run in Hprobe. cbn [fst] in Hprobe.
  unfold splitFromProbe. unfold bind at 1.
  rewrite getMp3Duration_run, Hfiles, Hprobe.
  eexists. split; [reflexivity|]. cbn [logged files]. split; [exact Hfiles|].
  split.
  - rewrite (since_logged w _ (pre ++ [Spawn "ffprobe" (ffprobeArgs inputFilePath)])).
    + now rewrite ffmpegRequests_app, Hreq.
    + cbn [logged events]. now rewrite Hevents, <- app_assoc.
  - exact Hdir.
Qed.

Lemma runFfmpeg_fails
    (args : list string) (outputFileName : string) (w : World) :
  succeeds (spawn_run "ffmpeg" args (files w)) = false ->
  exists e evs,
    runFfmpeg args outputFileName w = (Thrown e, logged w evs)
    /\ ffmpegRequests evs = [args].
Proof.
  intros Hfail. unfold runFfmpeg. unfold bind at 1. unfold spawn.
  unfold bind at 1. rewrite emit_logged. unfold ret at 1.
  destruct (spawn_run "ffmpeg" args (files w)) as [message|code stdout stderr].
  - unfold bind at 1. rewrite console_logged, logged_logged.
    eexists _, _. split; reflexivity.
  - unfold bind at 1. rewrite mapM_log, logged_logged.
    destruct (logs_silent "ffmpeg stdout: " stdout) as [Hr _].
    rewrite bool_decide_eq_false_2.
    + unfold bind at 1. rewrite console_logged, logged_logged.
      eexists _, _. split; [reflexivity|].
      now rewrite !ffmpegRequests_app, Hr.
    + intros ->. discriminate Hfail.
Qed.

Lemma succeeds_close (outcome : SpawnOutcome) :
  succeeds outcome = true ->
  exists stdout stderr, outcome = SpawnClose (Some 0) stdout stderr.
Proof.
  destruct outcome as [message|[[| |]|] stdout stderr]; try discriminate.
  eauto.
Qed.

(** The loop stops at the first extraction that fails. *)
Lemma forLoop_splitTrack_fails
    (inputFilePath : string) (cueMetadata : ParsedCueFile)
    (outputDirectory : string) (totalDuration : Q)
    (done rest : list CueTrack) (before later : list TrackWindow)
    (win : TrackWindow) (outputFilePaths : list string) (w : World) :
  tracks cueMetadata = done ++ rest ->
  List.filter proper (windows rest totalDuration) = before ++ win :: later ->
  forallb (fun p =>
             succeeds (spawn_run "ffmpeg"
                         (extractionRequest inputFilePath cueMetadata
                            outputDirectory p) (files w))) before = true ->
  succeeds (spawn_run "ffmpeg"
              (extractionRequest inputFilePath cueMetadata outputDirectory win)
              (files w)) = false ->
  exists e evs,
    forLoop (length rest) (length done)
      (splitTrack inputFilePath cueMetadata outputDirectory totalDuration
         (path_extname inputFilePath))
      outputFilePaths w
    = (Thrown e, logged w evs)
    /\ ffmpegRequests evs
       = map (extractionRequest inputFilePath cueMetadata outputDirectory)
           (before ++ [win]).
Proof.
  intros Htracks Hplan Hbefore Hwin.
  revert done before outputFilePaths w Htracks Hplan Hbefore Hwin.
  induction rest as [|track rest IH];
    intros done before outputFilePaths w Htracks Hplan Hbefore Hwin.
  - now destruct before.
  - cbn [length forLoop]. unfold bind at 1. unfold splitTrack at 1.
    assert (tracks cueMetadata !! length done = Some track) as ->.
    { rewrite Htracks. apply list_lookup_middle. reflexivity. }
    assert (tracks cueMetadata !! (length done + 1)%nat = rest !! 0%nat) as ->.
    { rewrite Htracks, lookup_app_r by lia.
      now replace (length done + 1 - length done)%nat with 1%nat by lia. }
    assert (Hnext : tracks cueMetadata = (done ++ [track]) ++ rest)
      by now rewrite <- app_assoc.
    assert (Hlen : S (length done) = length (done ++ [track]))
      by (rewrite length_app; cbn; lia).
    cbn [windows List.filter] in Hplan.
    set (first := {| window_track := track;
                     startSeconds := startTimeSeconds track;
                     endSeconds := match rest with
                                   | next :: _ => startTimeSeconds next
                                   | [] => totalDuration
                                   end |}) in *.
    assert (match rest !! 0%nat with
            | Some next => startTimeSeconds next
            | None => totalDuration
            end = endSeconds first) as -> by now destruct rest.
    change (Qle_bool (endSeconds first) (startTimeSeconds track))
      with (degenerate first).
    replace (proper first) with (negb (degenerate first)) in * by reflexivity.
    destruct (degenerate first) eqn:Hdeg; cbn [negb] in *.
    + unfold bind at 1. rewrite console_logged. unfold ret at 1.
      destruct (IH (done ++ [track]) before outputFilePaths
                  (logged w [skipWarning first]) Hnext Hplan Hbefore Hwin)
        as (e & evs & Hloop & Hreq).
      exists e, (skipWarning first :: evs). rewrite Hlen.
      unfold skipWarning at 1 in Hloop. cbn [window_track first] in Hloop.
      rewrite logged_logged in Hloop. split; [exact Hloop | exact Hreq].
    + set (path := path_join outputDirectory _).
      change (runFfmpeg _ _)
        with (runFfmpeg
                (extractionRequest inputFilePath cueMetadata outputDirectory
                   first)
                (windowFileName (path_extname inputFilePath) first)).
      destruct before as [|p before].
      * injection Hplan as <- _.
        destruct (runFfmpeg_fails _ (windowFileName (path_extname inputFilePath)
                                       first) w Hwin)
          as (e & evs & Hrun & Hreq).
        unfold bind at 1. rewrite Hrun.
        exists e, evs. split; [reflexivity | exact Hreq].
      * injection Hplan as <- Hplan. cbn [forallb] in Hbefore.
        apply andb_true_iff in Hbefore as [Hfirst Hbefore].
        apply succeeds_close in Hfirst as (stdout & stderr & Hfirst).
        destruct (runFfmpeg_ok _ (windowFileName (path_extname inputFilePath)
                                    first) w stdout stderr Hfirst)
          as (evs1 & Hrun1 & Hreq1 & _).
        unfold bind at 1. rewrite Hrun1. unfold ret at 1.
        destruct (IH (done ++ [track]) before (outputFilePaths ++ [path])
                    (logged w evs1) Hnext Hplan Hbefore Hwin)
          as (e & evs & Hloop & Hreq).
        exists e, (evs1 ++ evs). rewrite Hlen. split.
        -- rewrite logged_logged in Hloop. exact Hloop.
        -- rewrite ffmpegRequests_app, Hreq1, Hreq. reflexivity.
Qed.

(** X15.  The extractions run one after the other and the first one that
    fails ends the run: [splitMp3WithCue] throws, the windows before the
    failing one have been requested, the failing one too, and none of the
    later ones. *)
Theorem splitMp3WithCue_stops_at_first_failure
    (inputFilePath : string) (cueMetadata : ParsedCueFile)
    (outputDirectory : string) (totalDuration : Q) (w : World)
    (stdout stderr : list string)
    (before later : list TrackWindow) (win : TrackWindow) :
  isPresent w inputFilePath = true ->
  (0 < length (tracks cueMetadata))%nat ->
  spawn_run "ffprobe" (ffprobeArgs inputFilePath) (files w)
  = SpawnClose (Some 0) stdout stderr ->
  parseFloat (JS.trim (String.concat "" stdout)) = Some totalDuration ->
  List.filter proper (windows (tracks cueMetadata) totalDuration)
  = before ++ win :: later ->
  forallb (fun p =>
             succeeds (spawn_run "ffmpeg"
                         (extractionRequest inputFilePath cueMetadata
                            outputDirectory p) (files w))) before = true ->
  succeeds (spawn_run "ffmpeg"
              (extractionRequest inputFilePath cueMetadata outputDirectory win)
              (files w)) = false ->
  exists e w',
    splitMp3WithCue inputFilePath cueMetadata outputDirectory w = (Thrown e, w')
    /\ files w' = files w
    /\ ffmpegRequests (since w w')
       = map (extractionRequest inputFilePath cueMetadata outputDirectory)
           (before ++ [win]).
Proof.
  intros Hpresent Hpos Hprobe Hparse Hplan Hbefore Hwin.
  destruct (splitMp3WithCue_setup inputFilePath cueMetadata outputDirectory w
              Hpresent Hpos) as (w1 & pre & -> & Hfiles & Hevents & Hreq & _).
  unfold splitFromProbe. unfold bind at 1.
  rewrite (getMp3Duration_ok inputFilePath w1 stdout stderr totalDuration)
    by (rewrite ?Hfiles; assumption).
  unfold bind at 1. rewrite console_logged, logged_logged.
  unfold bind at 1.
  match goal with
  | |- context [forLoop _ _ _ _ ?w2] =>
      destruct (forLoop_splitTrack_fails inputFilePath cueMetadata
                  outputDirectory totalDuration [] (tracks cueMetadata)
                  before later win [] w2 eq_refl Hplan)
        as (e & evs & Hloop & Hreqs)
  end.
  { cbn [logged files]. now rewrite Hfiles. }
  { cbn [logged files]. now rewrite Hfiles. }
  cbn [length] in Hloop. rewrite Hloop.
  eexists _, _. split; [reflexivity|]. cbn [logged files].
  split; [exact Hfiles|].
  erewrite since_logged.
  2:{ cbn [logged events]. rewrite Hevents, <- !app_assoc. reflexivity. }
  rewrite !ffmpegRequests_app, Hreq, Hreqs. reflexivity.
Qed.

End DriverEdges.

Lemma getMp3Duration_outcomes_witness :
  let E := sampleEnv noParser sampleBinaries in
  let F := sampleEnv noParser probeFails in
  fst (@getMp3Duration E "mix.mp3" sampleAudioWorld) = Returned 120%Q
  /\ fst (@getMp3Duration F "mix.mp3" sampleAudioWorld)
     = Thrown (JsError ("ffprobe exited with code " +:+ codeToString (Some 1)
                        +:+ ": " +:+ String.concat "" ["no such file"])).
Proof.
  intros E F. split.
  - apply (proj1 (proj2 (@getMp3Duration_outcomes E "mix.mp3" sampleAudioWorld))
             ["120"; JS.LF] [] 120%Q); reflexivity.
  - apply (proj1 (proj2 (proj2 (proj2
             (@getMp3Duration_outcomes F "mix.mp3" sampleAudioWorld))))
             (Some 1) [] ["no such file"]); [reflexivity | discriminate].
Defined.

Lemma splitMp3WithCue_refuses_witness :
  let E := sampleEnv noParser sampleBinaries in
  let noTrack := {| album_title := None; album_performer := None;
                    audioFileName := "mix.mp3"; tracks := [] |} in
  (@splitMp3WithCue E "mix.mp3" sampleParsed "out" emptyWorld
   = (Thrown (JsError ("Input audio file not found: " +:+ "mix.mp3")),
      logged emptyWorld
        [Console Log [Text "splitMp3WithCue: ABOUT TO existsSync?"];
         ExistsSync "mix.mp3"]))
  /\ (@splitMp3WithCue E "mix.mp3" noTrack "out" sampleAudioWorld
      = (Thrown (JsError "No tracks provided for splitting."),
         logged sampleAudioWorld
           [Console Log [Text "splitMp3WithCue: ABOUT TO existsSync?"];
            ExistsSync "mix.mp3"])).
Proof.
  intros E noTrack. split.
  - apply (proj1 (@splitMp3WithCue_refuses E "mix.mp3" sampleParsed "out"
                    emptyWorld)).
    reflexivity.
  - apply (proj2 (@splitMp3WithCue_refuses E "mix.mp3" noTrack "out"
                    sampleAudioWorld));
      [vm_compute; reflexivity | reflexivity].
Defined.

Lemma splitMp3WithCue_probe_failure_witness :
  let E := sampleEnv noParser probeFails in
  exists w',
    @splitMp3WithCue E "mix.mp3" sampleParsed "out" sampleAudioWorld
    = (Thrown (JsError ("ffprobe exited with code " +:+ "1" +:+ ": "
                        +:+ "no such file")), w')
    /\ files w' = files sampleAudioWorld
    /\ ffmpegRequests (since sampleAudioWorld w') = []
    /\ isPresent w' "out" = true.
Proof.
  intros E.
  apply (@splitMp3WithCue_probe_failure E "mix.mp3" sampleParsed "out"
           sampleAudioWorld);
    [vm_compute; reflexivity | cbn; lia | reflexivity].
Defined.

Lemma splitMp3WithCue_stops_at_first_failure_witness :
  let E := sampleEnv noParser secondTrackFails in
  let plan := windows sampleTracks 120 in
  exists e w',
    @splitMp3WithCue E "mix.mp3" sampleParsed "out" sampleAudioWorld
    = (Thrown e, w')
    /\ files w' = files sampleAudioWorld
    /\ ffmpegRequests (since sampleAudioWorld w')
       = map (@extractionRequest E "mix.mp3" sampleParsed "out") (take 2 plan).
Proof.
  intros E plan.
  apply (@splitMp3WithCue_stops_at_first_failure E "mix.mp3" sampleParsed
           "out" 120%Q sampleAudioWorld ["120"; JS.LF] []
           (take 1 plan) (drop 2 plan)
           {| window_track := sampleTrack 2 30; startSeconds := 30;
              endSeconds := 90 |});
    [vm_compute; reflexivity | cbn; lia | reflexivity | reflexivity
    | reflexivity | reflexivity | reflexivity].
Defined.

(** * More on the segment plan *)

Section PlanFacts.

Local Open Scope Q_scope.

Lemma windows_cons (track : CueTrack) (rest : list CueTrack) (D : Q) :
  windows (track :: rest) D
  = {| window_track := track;
       startSeconds := startTimeSeconds track;
       endSeconds := hd D (map startTimeSeconds rest) |}
    :: windows rest D.
Proof. now destruct rest. Qed.


(** X16.  When the start times rise strictly from track to track and the
    total duration lies beyond the last start, no window is empty: every
    track of the list is in the plan of extractions. *)
Theorem windows_all_proper (trackList : list CueTrack) (totalDuration : Q) :
  strictlyAscending (map startTimeSeconds trackList ++ [totalDuration]) = true ->
  List.filter proper (windows trackList totalDuration)
  = windows trackList totalDuration
  /\ List.filter degenerate (windows trackList totalDuration) = [].
Proof.
  induction trackList as [|track rest IH]; [now split|].
  rewrite windows_cons. cbn [map app List.filter].
  intros Hasc.
  assert (negb (Qle_bool (hd totalDuration (map startTimeSeconds rest))
                  (startTimeSeconds track)) = true
          /\ strictlyAscending (map startTimeSeconds rest ++ [totalDuration])
             = true) as [Hfirst Hrest].
  { destruct rest; cbn [map app strictlyAscending hd] in *;
      now apply andb_true_iff in Hasc. }
  destruct (IH Hrest) as [IH1 IH2].
  unfold proper at 1, degenerate at 1 2. cbn [startSeconds endSeconds].
  rewrite Hfirst. apply negb_true_iff in Hfirst. rewrite Hfirst.
  now rewrite IH1, IH2.
Qed.

Lemma ascending_tail (x : Q) (l : list Q) :
  ascending (x :: l) = true -> x <= hd x l /\ ascending l = true.
Proof.
  destruct l as [|y l]; cbn [ascending hd].
  - intros _. split; [lra | reflexivity].
  - intros [Hxy Hl]%andb_true_iff. split; [now apply Qle_bool_iff | exact Hl].
Qed.

(** X17.  In a track list in ascending order of start time, a window is
    empty only when its track starts together with the next one or, for
    the last track, when the total duration is not beyond its start: of
    two tracks with equal start times it is the earlier one in the list
    that is skipped. *)
Theorem degenerate_in_ascending_list
    (trackList : list CueTrack) (totalDuration : Q) (i : nat)
    (win : TrackWindow) :
  ascending (map startTimeSeconds trackList) = true ->
  windows trackList totalDuration !! i = Some win ->
  degenerate win = true ->
  match trackList !! S i with
  | Some next => startTimeSeconds next == startSeconds win
  | None => totalDuration <= startSeconds win
  end.
Proof.
  revert i. induction trackList as [|track rest IH]; intros i Hasc Hwin Hdeg.
  - now destruct i.
  - cbn [map] in Hasc. apply ascending_tail in Hasc as [Hle Hrest].
    destruct i as [|i].
    + rewrite windows_cons in Hwin. injection Hwin as <-.
      unfold degenerate in Hdeg. cbn [startSeconds endSeconds] in *.
      apply Qle_bool_iff in Hdeg.
      destruct rest as [|next rest]; cbn [hd map lookup list_lookup] in *;
        [exact Hdeg | lra].
    + rewrite windows_cons in Hwin. cbn [lookup list_lookup] in Hwin.
      exact (IH i Hrest Hwin Hdeg).
Qed.




Local Close Scope Q_scope.

End PlanFacts.

Lemma windows_all_proper_witness :
  List.filter proper (windows sampleTracks 120) = windows sampleTracks 120
  /\ List.filter degenerate (windows sampleTracks 120) = [].
Proof. apply (windows_all_proper sampleTracks 120). reflexivity. Defined.

Lemma degenerate_in_ascending_list_witness :
  (startTimeSeconds (sampleTrack 2 10) == 10)%Q.
Proof.
  apply (degenerate_in_ascending_list [sampleTrack 1 10; sampleTrack 2 10] 120
           0 {| window_track := sampleTrack 1 10; startSeconds := 10;
                endSeconds := 10 |}); reflexivity.
Defined.


(** * More on the clock string *)

Section ClockFacts.

Local Open Scope Q_scope.

Lemma Q_of_Z_le (a b : Z) : (a <= b)%Z -> inject_Z a <= inject_Z b.
Proof. now rewrite <- Zle_Qle. Qed.

Lemma Q_of_Z_lt (a b : Z) : (a < b)%Z -> inject_Z a < inject_Z b.
Proof. now rewrite <- Zlt_Qlt. Qed.






Lemma cueTime_floor (t : CueTime) :
  (0 <= frame t < 75)%Z ->
  Qfloor (cueTimeToSeconds t) = (60 * min t + sec t)%Z
  /\ cueTimeToSeconds t - inject_Z (60 * min t + sec t)
     == inject_Z (frame t) * (1 # 75).
Proof.
  intros [Hf0 Hf1]. apply Q_of_Z_le in Hf0. apply Q_of_Z_lt in Hf1.
  change (inject_Z 0) with 0 in Hf0. change (inject_Z 75) with 75 in Hf1.
  unfold cueTimeToSeconds, Qdiv. change (/ 75) with (1 # 75).
  split.
  - apply Qfloor_unique; rewrite inject_Z_plus, inject_Z_mult;
      change (inject_Z 60) with 60; lra.
  - rewrite inject_Z_plus, inject_Z_mult. change (inject_Z 60) with 60. lra.
Qed.

(** X21.  The start of a track, made by [cueTimeToSeconds] from an index
    time with seconds below 60 and frames below 75, is printed by
    [formatTime] with the minutes of the index split into hours and
    minutes, its seconds, and its frames turned into milliseconds; these
    stay below 1000 (74 frames give 987), so that below 6000 minutes the
    text always has the twelve code units of [HH:MM:SS.mmm]. *)
Theorem formatTime_of_cue_time (t : CueTime) :
  (0 <= min t)%Z -> (0 <= sec t < 60)%Z -> (0 <= frame t < 75)%Z ->
  let ms := JS.round (inject_Z (frame t) * 1000 / 75) in
  formatTime (cueTimeToSeconds t)
  = clockText (min t / 60) (min t mod 60) (sec t) ms
  /\ (0 <= ms < 1000)%Z
  /\ ((min t < 6000)%Z ->
      String.length (formatTime (cueTimeToSeconds t)) = 12%nat).
Proof.
  intros Hmin Hsec Hframe ms.
  destruct (cueTime_floor t Hframe) as [Hfloor Hfrac].
  pose proof Hframe as [Hf0 Hf1]. apply Q_of_Z_le in Hf0. apply Q_of_Z_lt in Hf1.
  change (inject_Z 0) with 0 in Hf0. change (inject_Z 75) with 75 in Hf1.
  pose proof (Q_of_Z_le _ _ Hmin) as Hmin'. change (inject_Z 0) with 0 in Hmin'.
  pose proof Hsec as [Hs0 Hs1]. apply Q_of_Z_le in Hs0. apply Q_of_Z_lt in Hs1.
  change (inject_Z 0) with 0 in Hs0. change (inject_Z 60) with 60 in Hs1.
  assert (inject_Z (sec t) <= 59) as Hs59
    by (change 59 with (inject_Z 59); apply Q_of_Z_le; lia).
  assert (Hnonneg : 0 <= cueTimeToSeconds t).
  { unfold cueTimeToSeconds, Qdiv. change (/ 75) with (1 # 75). lra. }
  assert (Hms : JS.round ((cueTimeToSeconds t
                           - inject_Z (Qfloor (cueTimeToSeconds t))) * 1000)
                = ms).
  { subst ms. unfold JS.round. apply Qfloor_comp. rewrite Hfloor, Hfrac.
    unfold Qdiv. change (/ 75) with (1 # 75). lra. }
  assert (Hrange : (0 <= ms < 1000)%Z).
  { subst ms. unfold JS.round.
    remember (inject_Z (frame t) * 1000 / 75 + (1 # 2)) as x eqn:Hx.
    assert (x == inject_Z (frame t) * (40 # 3) + (1 # 2)) as Ex
      by (subst x; unfold Qdiv; change (/ 75) with (1 # 75); lra).
    clear Hx. destruct (floor_bounds x) as [H1 H2].
    assert (inject_Z (frame t) <= 74) as Hf74
      by (change 74 with (inject_Z 74); apply Q_of_Z_le; lia).
    split.
    - assert (inject_Z (-1) < inject_Z (Qfloor x)) as Hc
        by (change (inject_Z (-1)) with (-1); lra).
      apply Z_of_Q_lt in Hc. lia.
    - apply Z_of_Q_lt. change (inject_Z 1000) with 1000. lra. }
  assert (Hminutes : Qfloor (cueTimeToSeconds t / 60) = min t).
  { apply Qfloor_unique; unfold cueTimeToSeconds, Qdiv;
      change (/ 75) with (1 # 75); change (/ 60) with (1 # 60); lra. }
  assert (Hhours : Qfloor (cueTimeToSeconds t / 3600) = (min t / 60)%Z).
  { pose proof (Z.div_mod (min t) 60 ltac:(lia)) as Hdm.
    pose proof (Z.mod_pos_bound (min t) 60 ltac:(lia)) as [Hr0 Hr1].
    assert (inject_Z (min t)
            = 60 * inject_Z (min t / 60) + inject_Z (min t mod 60)) as Emin.
    { rewrite Hdm at 1. now rewrite inject_Z_plus, inject_Z_mult. }
    apply Q_of_Z_le in Hr0.
    assert (inject_Z (min t mod 60) <= 59) as Hr59
      by (change 59 with (inject_Z 59); apply Q_of_Z_le; lia).
    change (inject_Z 0) with 0 in Hr0.
    apply Qfloor_unique; unfold cueTimeToSeconds, Qdiv;
      change (/ 75) with (1 # 75); change (/ 3600) with (1 # 3600);
      rewrite Emin; lra. }
  assert (Htext : formatTime (cueTimeToSeconds t)
                  = clockText (min t / 60) (min t mod 60) (sec t) ms).
  { rewrite (formatTime_fields _ Hnonneg), Hms, Hhours, Hminutes, Hfloor.
    f_equal. rewrite Z.add_comm, Z.mul_comm, Z_mod_plus_full.
    now apply Z.mod_small. }
  split; [exact Htext|]. split; [exact Hrange|].
  intros Hbig. rewrite Htext. unfold clockText. rewrite !append_length.
  rewrite (width2 (min t / 60))
    by (split; [apply Z.div_pos; lia | apply Z.div_lt_upper_bound; lia]).
  rewrite (width2 (min t mod 60))
    by (pose proof (Z.mod_pos_bound (min t) 60 ltac:(lia)); lia).
  rewrite (width2 (sec t)) by lia. now rewrite width3.
Qed.

Lemma formatTime_of_cue_time_witness :
  let t := {| min := 61; sec := 30; frame := 37 |} in
  formatTime (cueTimeToSeconds t) = clockText 1 1 30 493
  /\ (0 <= 493 < 1000)%Z
  /\ ((61 < 6000)%Z -> String.length (formatTime (cueTimeToSeconds t)) = 12%nat).
Proof.
  intros t. apply (formatTime_of_cue_time t); cbn; lia.
Defined.

Local Close Scope Q_scope.

End ClockFacts.

(** * More on the file names *)

Section FileNames.

Lemma sanitize_words (s : string) :
  sanitize s = JS.join " " (wordsOf (keepChars isFileNameChar s)).
Proof.
  unfold sanitize. rewrite removeClass_keepChars. apply trim_collapse_words.
Qed.

Lemma words_from_words (cur s : string) :
  solid cur -> Forall isWord (words_from cur s).
Proof.
  revert cur. induction s as [|c s IH]; intros cur Hcur; cbn [words_from].
  - destruct cur; cbn [JS.isEmpty]; constructor; [|constructor].
    split; [congruence | exact Hcur].
  - destruct (JS.isWhiteSpace c) eqn:Hc.
    + assert (solid "") as Hnil by (intros x []).
      destruct cur; cbn [JS.isEmpty]; [now apply IH|].
      constructor; [|now apply IH]. split; [congruence | exact Hcur].
    + apply IH. now apply solid_snoc.
Qed.

Lemma words_from_append (cur w s : string) :
  solid w -> words_from cur (w +:+ s) = words_from (cur +:+ w) s.
Proof.
  revert cur. induction w as [|c w IH]; intros cur Hw.
  - now rewrite append_empty_r.
  - change (String c w +:+ s) with (String c (w +:+ s)). cbn [words_from].
    rewrite (Hw c) by now left.
    rewrite IH by (intros x Hx; apply Hw; now right).
    now rewrite append_assoc.
Qed.

Lemma words_join (l : list string) :
  Forall isWord l -> wordsOf (JS.join " " l) = l.
Proof.
  unfold wordsOf. induction 1 as [|w rest [Hne Hsolid] Hrest IH];
    [reflexivity|].
  destruct rest as [|w2 rest'].
  - cbn [JS.join]. rewrite <- (append_empty_r w) at 1.
    rewrite words_from_append by exact Hsolid.
    cbn [words_from]. change ("" +:+ w) with w.
    destruct w; [congruence | reflexivity].
  - change (JS.join " " (w :: w2 :: rest'))
      with (w +:+ String " " (JS.join " " (w2 :: rest'))).
    rewrite words_from_append by exact Hsolid.
    change ("" +:+ w) with w. cbn [words_from].
    change (JS.isWhiteSpace " ") with true. cbn iota.
    rewrite IH. destruct w; [congruence | reflexivity].
Qed.

Lemma keepChars_all (keep : ascii -> bool) (s : string) :
  (forall c, In c (list_ascii_of_string s) -> keep c = true) ->
  keepChars keep s = s.
Proof.
  induction s as [|c s IH]; intros Hall; [reflexivity|].
  cbn [keepChars]. rewrite (Hall c) by now left.
  f_equal. apply IH. intros x Hx. apply Hall. now right.
Qed.

Lemma keepChars_in (keep : ascii -> bool) (c : ascii) (s : string) :
  In c (list_ascii_of_string s) -> keep c = true ->
  In c (list_ascii_of_string (keepChars keep s)).
Proof.
  induction s as [|d s IH]; [intros []|].
  intros [->|Hin] Hc; cbn [keepChars].
  - rewrite Hc. now left.
  - destruct (keep d); [right|]; now apply IH.
Qed.

Lemma sanitize_chars (s : string) (c : ascii) :
  In c (list_ascii_of_string (sanitize s)) -> isFileNameChar c = true.
Proof.
  unfold sanitize, JS.trim. rewrite removeClass_keepChars.
  intros Hin%in_trimEnd%in_trimStart%in_collapse.
  destruct Hin as [->|[Hin _]]; [reflexivity|].
  now apply in_keepChars in Hin.
Qed.

(** X22.  Sanitizing is idempotent: a name that [sanitize] has made is
    left as it is by [sanitize]. *)
Theorem sanitize_idempotent (s : string) :
  sanitize (sanitize s) = sanitize s.
Proof.
  rewrite (sanitize_words (sanitize s)).
  rewrite keepChars_all by apply sanitize_chars.
  rewrite (sanitize_words s).
  rewrite words_join; [reflexivity|].
  apply words_from_words. intros x [].
Qed.

Lemma words_from_nil (cur s : string) :
  words_from cur s = [] <-> cur = "" /\ blank s.
Proof.
  revert cur. induction s as [|c s IH]; intros cur; cbn [words_from].
  - destruct cur; cbn [JS.isEmpty]; split; try easy;
      try (intros _; split; [reflexivity | intros x []]).
  - destruct (JS.isWhiteSpace c) eqn:Hc.
    + destruct cur; cbn [JS.isEmpty]; [|split; [easy | now intros [? _]]].
      rewrite IH. split; intros [_ Hb]; (split; [reflexivity|]).
      * intros x [<-|Hx]; [exact Hc | now apply Hb].
      * intros x Hx. apply Hb. now right.
    + rewrite IH. split.
      * intros [Hnil _]. destruct cur; discriminate Hnil.
      * intros [_ Hb]. specialize (Hb c ltac:(now left)). congruence.
Qed.

Lemma join_nil (sep : string) (l : list string) :
  Forall isWord l -> JS.join sep l = "" -> l = [].
Proof.
  intros Hl. destruct Hl as [|w rest [Hne _] _]; [reflexivity|].
  intros Hjoin. exfalso. destruct rest; cbn [JS.join] in Hjoin;
    destruct w; try congruence; discriminate Hjoin.
Qed.

(** X23.  The sanitized name is empty exactly when every code unit of the
    text is white space or one that is removed: a title of punctuation
    only gives a file without a title. *)
Theorem sanitize_empty (s : string) :
  sanitize s = ""
  <-> forall c, In c (list_ascii_of_string s) ->
                isFileNameChar c = true -> JS.isWhiteSpace c = true.
Proof.
  rewrite sanitize_words. split.
  - intros Hjoin c Hin Hkeep.
    apply join_nil in Hjoin; [|apply words_from_words; intros x []].
    apply words_from_nil in Hjoin as [_ Hblank].
    apply Hblank. now apply keepChars_in.
  - intros Hall.
    assert (wordsOf (keepChars isFileNameChar s) = []) as ->; [|reflexivity].
    apply words_from_nil. split; [reflexivity|].
    intros c Hin. apply in_keepChars in Hin as [Hkeep Hin]. now apply Hall.
Qed.

End FileNames.

(** * How the programs end *)

Section ExitStatus.

Context `{Env}.
































End ExitStatus.


(** * From the sheet to the pieces *)

Section Coverage.

Context `{Env}.

Local Open Scope Q_scope.




End Coverage.


(** * The entries of a tracklist *)

Section TracklistEntries.


(** X28.  A tracklist that holds nothing but white space still gives one
    entry, at [00:00] with an empty artist and an empty title, and the
    sheet made of it has a track 01 with an empty [TITLE] and an empty
    [PERFORMER]. *)
Theorem parseTracklist_blank (tracklist albumTitle filename : string) :
  JS.trim tracklist = "" ->
  parseTracklist tracklist
  = [{| timestamp := "00:00"; artist := ""; title := "" |}]
  /\ generateCueFileContent (parseTracklist tracklist) albumTitle filename
     = "TITLE " +:+ JS.QUOTE +:+ albumTitle +:+ JS.QUOTE +:+ JS.LF
       +:+ "FILE " +:+ JS.QUOTE +:+ filename +:+ JS.QUOTE +:+ " MP3" +:+ JS.LF
       +:+ JS.TAB +:+ "TRACK 01 AUDIO" +:+ JS.LF
       +:+ JS.TAB +:+ JS.TAB +:+ "TITLE " +:+ JS.QUOTE +:+ JS.QUOTE +:+ JS.LF
       +:+ JS.TAB +:+ JS.TAB +:+ "PERFORMER " +:+ JS.QUOTE +:+ JS.QUOTE +:+ JS.LF
       +:+ JS.TAB +:+ JS.TAB +:+ "INDEX 01 00:00:00" +:+ JS.LF.
Proof.
  intros Hblank.
  assert (parseTracklist tracklist
          = [{| timestamp := "00:00"; artist := ""; title := "" |}]) as Hone
    by (unfold parseTracklist; now rewrite Hblank).
  split; [exact Hone|].
  rewrite Hone.
  destruct (generateCueTracks_lines 0
              [{| timestamp := "00:00"; artist := ""; title := "" |}]
              ("TITLE " +:+ JS.QUOTE +:+ albumTitle +:+ JS.QUOTE +:+ JS.LF
               +:+ "FILE " +:+ JS.QUOTE +:+ filename +:+ JS.QUOTE +:+ " MP3"))
    as (s & Hs & Hsolid).
  { repeat apply endsSolid_app. now exists " MP", "3"%char. }
  unfold generateCueFileContent.
  rewrite !append_assoc in Hs. rewrite Hs, trimEnd_line by exact Hsolid.
  rewrite <- Hs. reflexivity.
Qed.

Lemma parseTracklist_blank_witness :
  let tracklist := JS.LF +:+ " " +:+ JS.CR +:+ JS.LF in
  parseTracklist tracklist
  = [{| timestamp := "00:00"; artist := ""; title := "" |}]
  /\ generateCueFileContent (parseTracklist tracklist) "Mix" "mix.mp3"
     = "TITLE " +:+ JS.QUOTE +:+ "Mix" +:+ JS.QUOTE +:+ JS.LF
       +:+ "FILE " +:+ JS.QUOTE +:+ "mix.mp3" +:+ JS.QUOTE +:+ " MP3" +:+ JS.LF
       +:+ JS.TAB +:+ "TRACK 01 AUDIO" +:+ JS.LF
       +:+ JS.TAB +:+ JS.TAB +:+ "TITLE " +:+ JS.QUOTE +:+ JS.QUOTE +:+ JS.LF
       +:+ JS.TAB +:+ JS.TAB +:+ "PERFORMER " +:+ JS.QUOTE +:+ JS.QUOTE +:+ JS.LF
       +:+ JS.TAB +:+ JS.TAB +:+ "INDEX 01 00:00:00" +:+ JS.LF.
Proof.
  intros tracklist. apply (parseTracklist_blank tracklist "Mix" "mix.mp3").
  reflexivity.
Defined.

End TracklistEntries.
